(** * Instructor dashboard and batch-commit utility

    A shallow embedding of [instructor-ui/src/App.tsx] (the view model of
    the instructor dashboard) and of the [commit-all.sh] script, together
    with the properties the specification states about them.

    - JavaScript numbers are IEEE 754 binary64 values, taken from the
      standard library's [SpecFloat] with [prec = 53] and [emax = 1024].
    - JavaScript strings are sequences of UTF-16 code units.
    - The two host functions whose result depends on the engine's Unicode
      tables and locale ([toLowerCase], [toLocaleTimeString]) are members
      of the class [JsHost].
    - The shell script is run against an environment that answers its
      directory tests and the exit status of [git diff --cached --quiet];
      the commands it issues are collected in a trace. *)

From Stdlib Require Import ZArith List Lia Bool String Ascii.
From Stdlib Require Import QArith Qpower Qround Lqa.
From Stdlib Require Import Floats.SpecFloat.
From Stdlib Require Import Permutation.
Import ListNotations.

(* ================================================================== *)
(** * Part I: the programs *)
(* ================================================================== *)

(** ** JavaScript numbers *)

Module Binary64.
Local Open Scope Z_scope.

Definition prec : Z := 53.
Definition emax : Z := 1024.

Definition Number := spec_float.

(** The Number denoting an integer (array lengths, integer literals). *)
Definition of_Z (z : Z) : Number := binary_normalize prec emax z 0 false.

Definition Number_add : Number -> Number -> Number := SFadd prec emax.
Definition Number_div : Number -> Number -> Number := SFdiv prec emax.
Definition Number_mul : Number -> Number -> Number := SFmul prec emax.

(** [Math.round]: the integer nearest to [x], ties towards plus infinity;
    the sign of a zero result is the sign of [x]; infinities and NaN are
    returned unchanged.  The integer [floor (x + 1/2)] is computed exactly,
    as the language standard defines it. *)
Definition Math_round (x : Number) : Number :=
  match x with
  | S754_finite s m e =>
      if 0 <=? e then x
      else
        let k := Z.shiftr (2 * cond_Zopp s (Zpos m) + 2 ^ (- e)) (1 - e) in
        if k =? 0 then S754_zero s else of_Z k
  | _ => x
  end.

(** The rational value of a finite number (0 for the others). *)
Definition val (x : Number) : Q :=
  match x with
  | S754_finite s m e => (inject_Z (cond_Zopp s (Zpos m)) * 2 ^ e)%Q
  | _ => 0%Q
  end.

(** One unit in the last place, relative to a normal number: 2^-52. *)
Definition ulp_rel : Q := 1 # 4503599627370496.

(** Positive normal numbers with their exponent confined to [lo, hi]. *)
Definition pnorm (x : Number) (lo hi : Z) : Prop :=
  exists (m : positive) (e : Z),
    x = S754_finite false m e /\ 2 ^ 52 <= Zpos m < 2 ^ 53 /\ lo <= e <= hi.

(** A shift register holding [m] with no bit shifted out so far. *)
Definition exact_rec (m : Z) : shr_record :=
  {| shr_m := m; shr_r := false; shr_s := false |}.

End Binary64.

(** ** Exact arithmetic the specification speaks of *)

Module Exact.

(** Rounding a rational to the nearest integer, a tie going up. *)
Definition round_nearest (x : Q) : Z := Qfloor (x + (1 # 2)).

(** The same for the quotient of two integers. *)
Definition round_half_up_div (S N : Z) : Z := ((2 * S + N) / (2 * N))%Z.

Definition Zsum (ks : list Z) : Z := fold_right Z.add 0%Z ks.

(** The arithmetic mean of [ks], rounded; zero for the empty list. *)
Definition mean_rounded (ks : list Z) : Z :=
  match ks with
  | [] => 0%Z
  | _ => round_nearest (inject_Z (Zsum ks) / inject_Z (Z.of_nat (List.length ks)))
  end.

End Exact.

(** ** JavaScript strings *)

Module Js.
Local Open Scope N_scope.

Definition code_unit := N.
Definition JsString := list code_unit.

(** A string literal of the source, all of whose characters are ASCII. *)
Definition js (s : string) : JsString :=
  map N_of_ascii (list_ascii_of_string s).

Fixpoint isPrefix (t s : JsString) : bool :=
  match t, s with
  | [], _ => true
  | _ :: _, [] => false
  | a :: t', b :: s' => (a =? b) && isPrefix t' s'
  end.

(** [s.includes(t)]: [t] occurs in [s] at some position. *)
Fixpoint includes (s t : JsString) : bool :=
  isPrefix t s ||
  match s with
  | [] => false
  | _ :: s' => includes s' t
  end.

(** The class [\w] of a regular expression without the [u] and [i] flags. *)
Definition is_word_char (c : code_unit) : bool :=
  ((48 <=? c) && (c <=? 57)) || ((65 <=? c) && (c <=? 90)) ||
  (c =? 95) || ((97 <=? c) && (c <=? 122)).

(** [c.toUpperCase()] for a single code unit matched by [\w]. *)
Definition toUpperCase_unit (c : code_unit) : code_unit :=
  if (97 <=? c) && (c <=? 122) then c - 32 else c.

(** Lower-casing of one ASCII code unit. *)
Definition ascii_lower (c : code_unit) : code_unit :=
  if (65 <=? c) && (c <=? 90) then c + 32 else c.

Definition hyphen : code_unit := 45.
Definition space : code_unit := 32.

(** [s.replace(/-/g, " ")] *)
Definition replace_hyphens (s : JsString) : JsString :=
  map (fun c => if c =? hyphen then space else c) s.

(** [s.replace(/\b\w/g, c => c.toUpperCase())]: a match is a word
    character that is not preceded by a word character; [prev] tells
    whether the previous code unit is one. *)
Fixpoint capitalize_word_starts (prev : bool) (s : JsString) : JsString :=
  match s with
  | [] => []
  | c :: r =>
      (if is_word_char c && negb prev then toUpperCase_unit c else c)
        :: capitalize_word_starts (is_word_char c) r
  end.

(** Host functions of the JavaScript engine. *)
Class JsHost : Type := {
  toLowerCase : JsString -> JsString;
  (** [new Date(s).toLocaleTimeString()] *)
  toLocaleTimeString : JsString -> JsString
}.

(** What every engine guarantees of [toLowerCase] on ASCII strings. *)
Definition lowers_ascii (host : JsHost) : Prop :=
  forall s, Forall (fun c => c < 128) s -> toLowerCase s = map ascii_lower s.

(** A host that lower-cases the ASCII letters only. *)
Definition ascii_host : JsHost :=
  {| toLowerCase := map ascii_lower; toLocaleTimeString := fun s => s |}.

(** *** The words of the specification of badge labels *)

Fixpoint split_on (sep : code_unit) (s : JsString) : list JsString :=
  match s with
  | [] => [[]]
  | c :: r =>
      if c =? sep then [] :: split_on sep r
      else match split_on sep r with
           | w :: ws => (c :: w) :: ws
           | [] => [[c]]
           end
  end.

Definition capitalize_first (w : JsString) : JsString :=
  match w with
  | [] => []
  | c :: r => toUpperCase_unit c :: r
  end.

Fixpoint join_with (sep : code_unit) (ws : list JsString) : JsString :=
  match ws with
  | [] => []
  | [w] => w
  | w :: ws' => w ++ sep :: join_with sep ws'
  end.

(** "Replace hyphens with spaces and upper-case the first letter of each
    word." *)
Definition label_spec (s : JsString) : JsString :=
  join_with space (map capitalize_first (split_on hyphen s)).

(** A hyphenated slug: word characters and hyphens. *)
Definition is_slug (s : JsString) : Prop :=
  Forall (fun c => is_word_char c = true \/ c = hyphen) s.

End Js.

(** ** The dashboard *)

Module BadgeData.
Record t : Type := { id : Js.JsString; name : Js.JsString; earnedAt : Js.JsString }.
End BadgeData.

Module ParticipantData.
Record t : Type := {
  id : Js.JsString;
  name : Js.JsString;
  badges : list BadgeData.t;
  connected : bool;
  lastSeen : Js.JsString;
  isOnline : bool
}.
End ParticipantData.

Module Participant.
Record t : Type := {
  id : Js.JsString;
  name : Js.JsString;
  email : option Js.JsString;
  progress : Binary64.Number;
  lastActivity : Js.JsString;
  badges : list Js.JsString;
  isOnline : bool
}.
End Participant.

Module Dashboard.
Import Binary64 Js.

(** The component state: the four [useState] cells. *)
Record State : Type := {
  query : JsString;
  connected : bool;
  participants : list Participant.t;
  error : option JsString
}.

Definition initial : State :=
  {| query := []; connected := false; participants := []; error := None |}.

Definition setQuery (q : JsString) (s : State) : State :=
  {| query := q; connected := connected s;
     participants := participants s; error := error s |}.

Definition setConnected (b : bool) (s : State) : State :=
  {| query := query s; connected := b;
     participants := participants s; error := error s |}.

Definition setParticipants (ps : list Participant.t) (s : State) : State :=
  {| query := query s; connected := connected s;
     participants := ps; error := error s |}.

Definition setError (e : option JsString) (s : State) : State :=
  {| query := query s; connected := connected s;
     participants := participants s; error := e |}.

(** What a [throw] or a rejected promise carries: an instance of [Error]
    with its message, or any other value. *)
Inductive Thrown : Type :=
| ErrorObject (message : JsString)
| NonError.

(** The body of the response once parsed; [participants_field] is [None]
    when the field is absent. *)
Record ResponseData : Type := {
  participants_field : option (list ParticipantData.t)
}.

(** A resolved [fetch]: the [ok] flag and the outcome of [response.json()]. *)
Record Response : Type := {
  ok : bool;
  json : Thrown + ResponseData
}.

(** [fetch] rejects (network failure) or resolves with a response. *)
Definition FetchOutcome : Type := (Thrown + Response)%type.

(** The [try] block as a computation that may throw. *)
Definition Try (A : Type) : Type := (Thrown + A)%type.

Definition ret {A : Type} (a : A) : Try A := inr a.
Definition throw {A : Type} (e : Thrown) : Try A := inl e.
Definition bind {A B : Type} (c : Try A) (k : A -> Try B) : Try B :=
  match c with
  | inl e => inl e
  | inr a => k a
  end.

Notation "x <- c ;; k" := (bind c (fun x => k))
  (at level 61, c at next level, right associativity).

Definition Number_of_length (n : nat) : Number := of_Z (Z.of_nat n).

Section Component.
Context {host : JsHost}.

(** The arrow function mapped over [data.participants]. *)
Definition formatParticipant (p : ParticipantData.t) : Participant.t :=
  {| Participant.id := ParticipantData.id p;
     Participant.name := ParticipantData.name p;
     Participant.email := None;
     Participant.progress :=
       Math_round
         (Number_mul
            (Number_div (Number_of_length (List.length (ParticipantData.badges p)))
                        (of_Z 20))
            (of_Z 100));
     Participant.lastActivity := toLocaleTimeString (ParticipantData.lastSeen p);
     Participant.badges := map BadgeData.id (ParticipantData.badges p);
     Participant.isOnline := ParticipantData.isOnline p |}.

(** [data.participants || []] *)
Definition participants_or_empty (data : ResponseData) : list ParticipantData.t :=
  match participants_field data with
  | Some l => l
  | None => []
  end.

Definition fetch_try (o : FetchOutcome) : Try (list Participant.t) :=
  response <- o ;;
  _ <- (if negb (ok response)
        then throw (ErrorObject (js "Failed to fetch participants"))
        else ret tt) ;;
  data <- json response ;;
  ret (map formatParticipant (participants_or_empty data)).

(** [err instanceof Error ? err.message : "Unknown error"] *)
Definition error_message (err : Thrown) : JsString :=
  match err with
  | ErrorObject message => message
  | NonError => js "Unknown error"
  end.

(** One run of [fetchParticipants], given what the network did. *)
Definition fetchParticipants (o : FetchOutcome) (s : State) : State :=
  match fetch_try o with
  | inr formatted =>
      setError None (setConnected true (setParticipants formatted s))
  | inl err =>
      setError (Some (error_message err)) (setConnected false s)
  end.

(** The initial call and the calls of the 5000 ms timer, one per outcome. *)
Definition poll (outcomes : list FetchOutcome) (s : State) : State :=
  fold_left (fun s o => fetchParticipants o s) outcomes s.

Definition matches_query (q : JsString) (p : Participant.t) : bool :=
  includes (toLowerCase (Participant.name p)) (toLowerCase q).

Definition filtered (s : State) : list Participant.t :=
  filter (matches_query (query s)) (participants s).

End Component.

Definition activeCount (s : State) : nat :=
  List.length (filter Participant.isOnline (participants s)).

Definition avg (s : State) : Number :=
  match List.length (participants s) with
  | O => of_Z 0
  | S _ =>
      Math_round
        (Number_div
           (fold_left (fun acc p => Number_add acc (Participant.progress p))
                      (participants s) (of_Z 0))
           (Number_of_length (List.length (participants s))))
  end.

(** The label handed to [Badge]. *)
Definition formatBadgeLabel (badgeId : JsString) : JsString :=
  capitalize_word_starts false (replace_hyphens badgeId).

(** The percentage the specification gives a raw participant. *)
Definition badge_percent (p : ParticipantData.t) : Z :=
  (5 * Z.of_nat (List.length (ParticipantData.badges p)))%Z.

(** The progress values of [ps] are the non-negative integers [ks]. *)
Definition integral_progress (ps : list Participant.t) (ks : list Z) : Prop :=
  Forall2 (fun p k => Participant.progress p = of_Z k /\ (0 <= k)%Z) ps ks.

(** *** Sample data *)

Definition sample_badge (slug : string) : BadgeData.t :=
  {| BadgeData.id := js slug;
     BadgeData.name := js "Badge";
     BadgeData.earnedAt := js "2025-03-01T10:00:00Z" |}.

(** A raw participant holding [n] badges. *)
Definition sample_raw (who : string) (n : nat) (online : bool)
    : ParticipantData.t :=
  {| ParticipantData.id := js who;
     ParticipantData.name := js who;
     ParticipantData.badges := repeat (sample_badge "module-master") n;
     ParticipantData.connected := online;
     ParticipantData.lastSeen := js "2025-03-01T10:00:00Z";
     ParticipantData.isOnline := online |}.

Definition sample_view (who : string) (percent : Z) (online : bool)
    : Participant.t :=
  {| Participant.id := js who;
     Participant.name := js who;
     Participant.email := None;
     Participant.progress := of_Z percent;
     Participant.lastActivity := js "10:00:00";
     Participant.badges := [];
     Participant.isOnline := online |}.

Definition sample_state : State :=
  {| query := js "";
     connected := true;
     participants := [sample_view "Ana" 0 true;
                      sample_view "Bob" 50 false;
                      sample_view "Cy" 100 true];
     error := None |}.

End Dashboard.

(** ** The commit script *)

Module CommitAll.
Local Open Scope string_scope.
Local Open Scope list_scope.

(** An absolute path, as its components from the root. *)
Definition path := list string.

(** The answers the script gets from its surroundings: [test -d] and [cd]
    on a path, and whether [git diff --cached --quiet], run in a directory
    after [git add -A], exits with status 0. *)
Record Env : Type := {
  is_dir : path -> bool;
  diff_cached_quiet : path -> bool
}.

Inductive Line : Type :=
| Usage
| Processing (dir : path)
| NoChanges (dir : path)
| Committed (dir : path)
| AllProcessed.

(** What the script does that can be seen from outside, with the working
    directory of each [git] command. *)
Inductive Event : Type :=
| Echo (line : Line)
| GitAddAll (cwd : path)
| GitDiffCached (cwd : path)
| GitCommit (cwd : path) (msg : string).

Record Shell : Type := {
  cwd : path;
  out : list Event
}.

Definition emit (e : Event) (sh : Shell) : Shell :=
  {| cwd := cwd sh; out := out sh ++ [e] |}.

Definition cd (dir : path) (sh : Shell) : Shell :=
  {| cwd := dir; out := out sh |}.

Section Script.
Variable env : Env.
Variable COMMIT_MSG : string.

Definition commit_in_dir (dir : path) (sh : Shell) : Shell :=
  let sh := emit (Echo (Processing dir)) sh in
  if is_dir env dir then
    let sh := cd dir sh in
    let sh := emit (GitAddAll (cwd sh)) sh in
    let sh := emit (GitDiffCached (cwd sh)) sh in
    if diff_cached_quiet env (cwd sh)
    then emit (Echo (NoChanges dir)) sh
    else emit (Echo (Committed dir)) (emit (GitCommit (cwd sh) COMMIT_MSG) sh)
  else sh.

(** One turn of the [for subrepo in ...] loop; the test [-d "$subrepo/.git"]
    is relative to the shell's current directory. *)
Definition loop_body (MAIN_DIR : path) (sh : Shell) (subrepo : string) : Shell :=
  if is_dir env (cwd sh ++ [subrepo; ".git"])
  then commit_in_dir (MAIN_DIR ++ [subrepo]) sh
  else sh.

Definition commit_subrepos (MAIN_DIR : path) (subrepos : list string)
    (sh : Shell) : Shell :=
  fold_left (loop_body MAIN_DIR) subrepos sh.

End Script.

Definition subrepos : list string :=
  ["instructor-service"; "instructor-ui"; "participant-service"].

(** The script, started in directory [start] with arguments [args]; it
    returns its exit status and what it did. *)
Definition main (env : Env) (args : list string) (start : path)
    : Z * list Event :=
  match nth 0 args "" with
  | EmptyString => (1%Z, [Echo Usage])
  | COMMIT_MSG =>
      let MAIN_DIR := start in
      let sh := {| cwd := start; out := [] |} in
      let sh := commit_subrepos env COMMIT_MSG MAIN_DIR subrepos sh in
      let sh := if is_dir env MAIN_DIR then cd MAIN_DIR sh else sh in
      let sh := commit_in_dir env COMMIT_MSG MAIN_DIR sh in
      let sh := emit (Echo AllProcessed) sh in
      (0%Z, out sh)
  end.

Definition trace (env : Env) (msg : string) (start : path) : list Event :=
  snd (main env [msg] start).

(** What [commit_in_dir] adds to the trace for one directory. *)
Definition events_of (env : Env) (msg : string) (dir : path) : list Event :=
  Echo (Processing dir) ::
  (if is_dir env dir then
     GitAddAll dir :: GitDiffCached dir ::
     (if diff_cached_quiet env dir
      then [Echo (NoChanges dir)]
      else [GitCommit dir msg; Echo (Committed dir)])
   else []).

(** The directories the loop hands to [commit_in_dir], in order, when the
    shell is in [cwd0]. *)
Fixpoint visited (env : Env) (MAIN_DIR cwd0 : path) (subs : list string)
    : list path :=
  match subs with
  | [] => []
  | sub :: rest =>
      if is_dir env (cwd0 ++ [sub; ".git"]) then
        (MAIN_DIR ++ [sub]) ::
        visited env MAIN_DIR
          (if is_dir env (MAIN_DIR ++ [sub]) then MAIN_DIR ++ [sub] else cwd0)
          rest
      else visited env MAIN_DIR cwd0 rest
  end.

(** The claim that staging and committing is gated, in every directory the
    script handles, by the metadata directory of that directory. *)
Definition gated_by_metadata (env : Env) (msg : string) (start d : path)
    : Prop :=
  In (GitAddAll d) (trace env msg start) \/
  In (GitCommit d msg) (trace env msg start) ->
  is_dir env (d ++ [".git"]) = true.

(** *** Sample environments *)

Fixpoint path_eqb (a b : path) : bool :=
  match a, b with
  | [], [] => true
  | x :: a', y :: b' => String.eqb x y && path_eqb a' b'
  | _, _ => false
  end.

(** An environment in which exactly the directories of [dirs] exist and
    [git diff --cached --quiet] never reports a clean index. *)
Definition env_of_dirs (dirs : list path) : Env :=
  {| is_dir := fun p => existsb (path_eqb p) dirs;
     diff_cached_quiet := fun _ => false |}.

(** A directory that is not under version control and has no subrepos. *)
Definition bare_env : Env := env_of_dirs [["work"%string]].

(** A checkout whose first two subrepos carry their own metadata. *)
Definition two_subrepos_env : Env :=
  env_of_dirs
    [["work"]; ["work"; ".git"];
     ["work"; "instructor-service"]; ["work"; "instructor-service"; ".git"];
     ["work"; "instructor-ui"]; ["work"; "instructor-ui"; ".git"]]%string.

End CommitAll.

(** ** Badge icons *)

Module Icons.
Import Js.
Local Open Scope N_scope.

(** The object literal [emojis] of [getBadgeEmoji]: its own properties, in
    the order of the source, each glyph by its code units. *)
Definition emojis : list (JsString * JsString) :=
  [(js "chamber-1", [0xf8ff; 0xfc; 0xe8; 0xf5; 0xd4; 0x220f; 0xe8]);
   (js "module-master", [0xf8ff; 0xfc; 0xe8; 0xf5; 0xd4; 0x220f; 0xe8]);
   (js "chamber-2", [0x201a; 0xf6; 0xee; 0xd4; 0x220f; 0xe8]);
   (js "controller-pro", [0x201a; 0xf6; 0xee; 0xd4; 0x220f; 0xe8]);
   (js "chamber-3", [0xf8ff; 0xfc; 0xed; 0xb0]);
   (js "di-ninja", [0xf8ff; 0xfc; 0xed; 0xb0]);
   (js "scope-expert", [0xf8ff; 0xfc; 0xdf; 0xa9]);
   (js "lifecycle-master", [0xf8ff; 0xfc; 0xdf; 0xa8]);
   (js "chamber-4", [0xf8ff; 0xfc; 0xe5; 0xe4]);
   (js "validation-guru", [0xf8ff; 0xfc; 0xe5; 0xe4]);
   (js "chamber-5", [0xf8ff; 0xfc; 0xdf; 0xb1]);
   (js "database-hero", [0xf8ff; 0xfc; 0xdf; 0xb1]);
   (js "chamber-6", [0xf8ff; 0xfc; 0xee; 0xc6]);
   (js "graphql-master", [0xf8ff; 0xfc; 0xee; 0xc6]);
   (js "cache-champion", [0xf8ff; 0xfc; 0xed; 0xe6]);
   (js "file-handler", [0xf8ff; 0xfc; 0xec; 0xc7]);
   (js "chamber-7", [0xf8ff; 0xfc; 0xee; 0xea]);
   (js "auth-expert", [0xf8ff; 0xfc; 0xee; 0xea]);
   (js "chamber-8", [0xf8ff; 0xfc; 0xf5; 0xb0; 0xd4; 0x220f; 0xe8]);
   (js "guard-warrior", [0xf8ff; 0xfc; 0xf5; 0xb0; 0xd4; 0x220f; 0xe8]);
   (js "interceptor-wizard", [0x201a; 0xfa; 0xae]);
   (js "middleware-maestro", [0x201a; 0xf6; 0xf4; 0xd4; 0x220f; 0xe8]);
   (js "chamber-9", [0xf8ff; 0xfc; 0xec; 0xb0]);
   (js "websocket-wizard", [0xf8ff; 0xfc; 0xec; 0xb0]);
   (js "chamber-10", [0x201a; 0xf6; 0xf4; 0xd4; 0x220f; 0xe8]);
   (js "microservices", [0x201a; 0xf6; 0xf4; 0xd4; 0x220f; 0xe8]);
   (js "event-master", [0xf8ff; 0xfc; 0xdf; 0x2020]);
   (js "chamber-11", [0xf8ff; 0xfc; 0xeb; 0xc5; 0xd4; 0x220f; 0xe8]);
   (js "health-guardian", [0xf8ff; 0xfc; 0xeb; 0xc5; 0xd4; 0x220f; 0xe8]);
   (js "test-champion", [0xf8ff; 0xfc; 0xdf; 0x2122]);
   (js "config-wizard", [0xf8ff; 0xfc; 0xec; 0xfa]);
   (js "chamber-12", [0xf8ff; 0xfc; 0xea; 0x2265]);
   (js "docker", [0xf8ff; 0xfc; 0xea; 0x2265]);
   (js "deployment", [0xf8ff; 0xfc; 0xea; 0x2265]);
   (js "workshop-complete", [0xf8ff; 0xfc; 0xe8; 0xdc])].

Definition fallback_emoji : JsString := [0xf8ff; 0xfc; 0xe9; 0xd8].

Fixpoint JsString_eqb (a b : JsString) : bool :=
  match a, b with
  | [], [] => true
  | x :: a', y :: b' => (x =? y) && JsString_eqb a' b'
  | _, _ => false
  end.

(** The own property [key] of an object literal. *)
Fixpoint own_property (key : JsString) (o : list (JsString * JsString))
    : option JsString :=
  match o with
  | [] => None
  | (k, v) :: rest => if JsString_eqb key k then Some v else own_property key rest
  end.

(** What [getBadgeEmoji] hands back: a string, or, for a name that the
    literal does not own and [Object.prototype] resolves, the function or
    object found there. *)
Inductive Looked : Type :=
| Text (s : JsString)
| Inherited.

(** The names [Object.prototype] gives every object literal in a standard
    engine. *)
Definition standard_inherited (key : JsString) : bool :=
  existsb (JsString_eqb key)
    [js "constructor"; js "hasOwnProperty"; js "isPrototypeOf";
     js "propertyIsEnumerable"; js "toLocaleString"; js "toString";
     js "valueOf"; js "__proto__"; js "__defineGetter__";
     js "__defineSetter__"; js "__lookupGetter__"; js "__lookupSetter__"].

Section Lookup.
(** Whether [Object.prototype] resolves a name to a truthy value. *)
Variable inherited : JsString -> bool.

(** [emojis[badgeId] || fallback] *)
Definition getBadgeEmoji (badgeId : JsString) : Looked :=
  match own_property badgeId emojis with
  | Some (c :: v) => Text (c :: v)
  | Some [] => Text fallback_emoji
  | None => if inherited badgeId then Inherited else Text fallback_emoji
  end.

(** The two children of the [Badge] component; [badgeId] is an optional
    property. *)
Record BadgeView : Type := {
  icon : Looked;
  caption : JsString
}.

Definition Badge (label : JsString) (badgeId : option JsString) : BadgeView :=
  {| icon := match badgeId with
             | Some (c :: b) => getBadgeEmoji (c :: b)
             | Some [] | None => Text fallback_emoji
             end;
     caption := label |}.

End Lookup.

End Icons.

(** ** What the component renders *)

Module Render.
Import Binary64 Js Dashboard Icons.

(** One badge of a row, with its React key. *)
Record Chip : Type := {
  chip_key : nat;
  chip : BadgeView
}.

(** One participant of the list. *)
Record Row : Type := {
  row_key : JsString;
  dimmed : bool;
  avatar : JsString;
  online_dot : bool;
  row_name : JsString;
  offline_tag : bool;
  row_lastActivity : JsString;
  bar_value : Number;
  percent : Number;
  chips : option (list Chip)
}.

Inductive Body : Type :=
| Placeholder
| Rows (rows : list Row).

Record Page : Type := {
  indicator : bool;
  search_box : JsString;
  banner : option JsString;
  active_card : nat;
  average_card : Number;
  body : Body
}.

(** [l.map((x, i) => f x i)] *)
Fixpoint map_indexed {A B : Type} (f : A -> nat -> B) (i : nat) (l : list A)
    : list B :=
  match l with
  | [] => []
  | x :: r => f x i :: map_indexed f (S i) r
  end.

Section Page.
Context {host : JsHost}.
Variable inherited : JsString -> bool.

Definition render_chips (badges : list JsString) : option (list Chip) :=
  match badges with
  | [] => None
  | _ :: _ =>
      Some (map_indexed
              (fun badgeId i =>
                 {| chip_key := i;
                    chip := Badge inherited (formatBadgeLabel badgeId)
                                  (Some badgeId) |})
              0 badges)
  end.

Definition render_row (p : Participant.t) : Row :=
  {| row_key := Participant.id p;
     dimmed := negb (Participant.isOnline p);
     avatar := firstn 1 (Participant.name p);
     online_dot := Participant.isOnline p;
     row_name := Participant.name p;
     offline_tag := negb (Participant.isOnline p);
     row_lastActivity := Participant.lastActivity p;
     bar_value := Participant.progress p;
     percent := Participant.progress p;
     chips := render_chips (Participant.badges p) |}.

(** The data the returned element tree depends on. *)
Definition render (s : State) : Page :=
  {| indicator := connected s;
     search_box := query s;
     banner := match error s with
               | Some (c :: m) => Some (c :: m)
               | Some [] | None => None
               end;
     active_card := activeCount s;
     average_card := avg s;
     body := match filtered s with
             | [] => Placeholder
             | p :: ps => Rows (map render_row (p :: ps))
             end |}.

End Page.

End Render.

(** ** Fetch outcomes within the bounds of the language *)

Module Bounds.
Import Dashboard.

(** Every badge array of the body is an array: fewer than 2^32 entries. *)
Definition body_bounded (data : ResponseData) : Prop :=
  Forall (fun p =>
            (Z.of_nat (List.length (ParticipantData.badges p)) < 2 ^ 32)%Z)
         (match participants_field data with Some l => l | None => [] end).

Definition outcome_bounded (o : FetchOutcome) : Prop :=
  match o with
  | inr {| ok := true; json := inr data |} => body_bounded data
  | _ => True
  end.

(** The body of the last outcome of [os] that is a success. *)
Fixpoint last_success (os : list FetchOutcome) : option ResponseData :=
  match os with
  | [] => None
  | o :: rest =>
      match last_success rest with
      | Some data => Some data
      | None =>
          match o with
          | inr {| ok := true; json := inr data |} => Some data
          | _ => None
          end
      end
  end.

(** Whether an outcome takes the success path. *)
Definition succeeds (o : FetchOutcome) : bool :=
  match o with
  | inr {| ok := true; json := inr _ |} => true
  | _ => false
  end.

End Bounds.

(* ================================================================== *)
(** * Part II: properties *)
(* ================================================================== *)

(** ** Binary64 arithmetic on the integers the dashboard computes with

    The standard library specifies the operations and proves nothing about
    them; what the dashboard needs is proved here: rounding a significand
    of at least 53 bits moves the value by at most one unit in the last
    place and leaves a representable value alone; hence integers below
    2^53 add exactly, and a quotient or product of normal numbers has a
    relative error of at most 2^-52. *)

Import Binary64 Exact.

Section Binary64Facts.
Local Open Scope Z_scope.


(** *** The number of binary digits *)

Lemma digits2_pos_size (p : positive) : digits2_pos p = Pos.size p.
Proof. induction p; simpl; congruence. Qed.

Lemma digits2_pos_log2 (p : positive) :
  Zpos (digits2_pos p) = Z.log2 (Zpos p) + 1.
Proof.
  rewrite digits2_pos_size.
  destruct p; simpl; try rewrite Pos2Z.inj_succ; lia.
Qed.

(** [Zdigits2 m] is the [d] with [2^(d-1) <= m < 2^d]. *)
Lemma Zdigits2_bounds (m : Z) :
  0 < m -> 2 ^ (Zdigits2 m - 1) <= m < 2 ^ Zdigits2 m.
Proof.
  intros Hm. destruct m as [|p|p]; try lia.
  simpl Zdigits2. rewrite digits2_pos_log2.
  replace (Z.log2 (Z.pos p) + 1 - 1) with (Z.log2 (Z.pos p)) by lia.
  replace (Z.log2 (Z.pos p) + 1) with (Z.succ (Z.log2 (Z.pos p))) by lia.
  apply Z.log2_spec. lia.
Qed.

Lemma Zdigits2_unique (m d : Z) :
  2 ^ (d - 1) <= m < 2 ^ d -> 0 < m -> Zdigits2 m = d.
Proof.
  intros Hb Hm. destruct m as [|p|p]; try lia.
  simpl Zdigits2. rewrite digits2_pos_log2.
  assert (0 < d).
  { destruct d as [|q|q]; [simpl in Hb; lia|lia|].
    rewrite (Z.pow_neg_r 2 (Z.neg q)) in Hb by lia. lia. }
  assert (Z.log2 (Z.pos p) = d - 1); [|lia].
  apply Z.log2_unique; [lia|]. replace (Z.succ (d - 1)) with d by lia. exact Hb.
Qed.

(** *** Shifting a significand to the right

    Only the significand of the shift register matters for the bounds
    below; the two sticky bits matter for exactness. *)

Lemma shr_1_m (mrs : shr_record) :
  0 <= shr_m mrs -> shr_m (shr_1 mrs) = shr_m mrs / 2.
Proof.
  destruct mrs as [m r s]; simpl; intros Hm.
  rewrite <- Z.div2_div.
  destruct m as [|[p|p|]|p]; simpl; try reflexivity; lia.
Qed.

Lemma pow2_xO (p : positive) : 2 ^ Zpos p~0 = 2 ^ Zpos p * 2 ^ Zpos p.
Proof. rewrite <- Z.pow_add_r by lia. f_equal. lia. Qed.

Lemma pow2_xI (p : positive) : 2 ^ Zpos p~1 = 2 * (2 ^ Zpos p * 2 ^ Zpos p).
Proof.
  rewrite <- Z.pow_add_r, <- Z.pow_succ_r by lia. f_equal. lia.
Qed.

(** [p] shifts divide the significand by [2^p]. *)
Lemma iter_shr_m (p : positive) :
  forall mrs, 0 <= shr_m mrs ->
    shr_m (iter_pos shr_1 p mrs) = shr_m mrs / 2 ^ Zpos p.
Proof.
  assert (Hnn : forall mrs, 0 <= shr_m mrs -> 0 <= shr_m (shr_1 mrs)).
  { intros mrs H. rewrite shr_1_m by exact H. apply Z.div_pos; lia. }
  induction p as [p IH|p IH|]; intros mrs Hm; cbn [iter_pos].
  - assert (H1 := Hnn _ Hm).
    assert (H2 : 0 <= shr_m (iter_pos shr_1 p (shr_1 mrs))).
    { rewrite IH by exact H1. apply Z.div_pos; lia. }
    rewrite (IH _ H2), (IH _ H1), shr_1_m by exact Hm.
    rewrite !Z.div_div by lia.
    f_equal. rewrite pow2_xI. lia.
  - assert (H2 : 0 <= shr_m (iter_pos shr_1 p mrs)).
    { rewrite IH by exact Hm. apply Z.div_pos; lia. }
    rewrite (IH _ H2), (IH _ Hm).
    rewrite !Z.div_div by lia.
    f_equal. rewrite pow2_xO. lia.
  - rewrite shr_1_m by exact Hm. reflexivity.
Qed.

Lemma shr_1_exact (c : Z) : 0 <= c -> shr_1 (exact_rec (2 * c)) = exact_rec c.
Proof. intros Hc. destruct c as [|p|p]; try lia; reflexivity. Qed.

(** Shifting out [p] zero bits loses nothing. *)
Lemma iter_shr_exact (p : positive) :
  forall c, 0 <= c ->
    iter_pos shr_1 p (exact_rec (c * 2 ^ Zpos p)) = exact_rec c.
Proof.
  induction p as [p IH|p IH|]; intros c Hc; cbn [iter_pos].
  - replace (c * 2 ^ Z.pos p~1) with (2 * ((c * 2 ^ Zpos p) * 2 ^ Zpos p)).
    + rewrite shr_1_exact by (apply Z.mul_nonneg_nonneg; lia).
      rewrite IH by (apply Z.mul_nonneg_nonneg; lia).
      apply IH; exact Hc.
    + rewrite pow2_xI. lia.
  - replace (c * 2 ^ Z.pos p~0) with ((c * 2 ^ Zpos p) * 2 ^ Zpos p).
    + rewrite IH by (apply Z.mul_nonneg_nonneg; lia).
      apply IH; exact Hc.
    + rewrite pow2_xO. lia.
  - change (2 ^ 1) with 2. rewrite Z.mul_comm. apply shr_1_exact; exact Hc.
Qed.

(** *** [binary_round_aux] in the normal range *)

Lemma fexp_normal (z : Z) : -1074 <= z - 53 -> fexp prec emax z = z - 53.
Proof. unfold fexp, emin, prec, emax. lia. Qed.

Lemma shr_m_of_loc (m : Z) (l : location) : shr_m (shr_record_of_loc m l) = m.
Proof. destruct l as [|[ | | ]]; reflexivity. Qed.

Lemma shr_fexp_noshift (m e : Z) (l : location) :
  fexp prec emax (Zdigits2 m + e) - e <= 0 ->
  shr_fexp prec emax m e l = (shr_record_of_loc m l, e).
Proof.
  intros Hk. unfold shr_fexp, shr.
  destruct (fexp prec emax (Zdigits2 m + e) - e); try reflexivity; lia.
Qed.

Lemma shr_fexp_shift (m e : Z) (l : location) :
  0 <= m ->
  0 < fexp prec emax (Zdigits2 m + e) - e ->
  exists mrs,
    shr_fexp prec emax m e l = (mrs, fexp prec emax (Zdigits2 m + e)) /\
    shr_m mrs = m / 2 ^ (fexp prec emax (Zdigits2 m + e) - e).
Proof.
  intros Hm Hk. unfold shr_fexp, shr.
  destruct (fexp prec emax (Zdigits2 m + e) - e) as [|p|p] eqn:Ek; try lia.
  eexists; split.
  - f_equal. lia.
  - rewrite iter_shr_m by (rewrite shr_m_of_loc; exact Hm).
    rewrite shr_m_of_loc. reflexivity.
Qed.

Lemma shr_fexp_shift_exact (c e k : Z) :
  0 <= c -> 0 < k ->
  fexp prec emax (Zdigits2 (c * 2 ^ k) + e) - e = k ->
  shr_fexp prec emax (c * 2 ^ k) e loc_Exact = (exact_rec c, e + k).
Proof.
  intros Hc Hk Ek. unfold shr_fexp, shr. rewrite Ek.
  destruct k as [|p|p]; try lia.
  change (shr_record_of_loc (c * 2 ^ Z.pos p) loc_Exact)
    with (exact_rec (c * 2 ^ Z.pos p)).
  rewrite iter_shr_exact by exact Hc. reflexivity.
Qed.

(** Whatever the location says, rounding keeps the significand or adds
    one to it. *)
Lemma round_nearest_even_cases (m : Z) (l : location) :
  round_nearest_even m l = m \/ round_nearest_even m l = m + 1.
Proof.
  destruct l as [|[ | | ]]; simpl; auto.
  destruct (Z.even m); auto.
Qed.

(** Rounding of a mantissa that carries at least 53 bits, away from the
    subnormal and overflow ranges: the result is a normal number whose
    distance to [mx * 2^ex] is at most one unit in the last place. *)
Lemma binary_round_aux_weak (sx : bool) (mx ex : Z) (lx : location) :
  0 < mx -> 53 <= Zdigits2 mx ->
  -1074 <= ex + Zdigits2 mx - 53 -> ex + Zdigits2 mx - 52 <= 971 ->
  exists (m : positive) (e : Z),
    binary_round_aux prec emax sx mx ex lx = S754_finite sx m e /\
    2 ^ 52 <= Zpos m < 2 ^ 53 /\
    ex + Zdigits2 mx - 53 <= e <= ex + Zdigits2 mx - 52 /\
    mx - 2 ^ (Zdigits2 mx - 53) < Zpos m * 2 ^ (e - ex)
      <= mx + 2 ^ (Zdigits2 mx - 53).
Proof.
  intros Hmx Hd Hlo Hhi.
  pose proof (Zdigits2_bounds mx Hmx) as Hb.
  set (d := Zdigits2 mx) in *.
  set (k := d - 53).
  assert (Hfe : fexp prec emax (d + ex) - ex = k).
  { rewrite fexp_normal by lia. unfold k. lia. }
  assert (Hpk : 0 < 2 ^ k) by (apply Z.pow_pos_nonneg; lia).
  assert (Hsplit : 2 ^ (d - 1) = 2 ^ 52 * 2 ^ k /\ 2 ^ d = 2 ^ 53 * 2 ^ k).
  { rewrite <- !Z.pow_add_r by lia. split; f_equal; unfold k; lia. }
  destruct Hsplit as [Hs1 Hs2].
  (* first shift *)
  assert (H1 : exists mrs, shr_fexp prec emax mx ex lx = (mrs, ex + k) /\
                 shr_m mrs = mx / 2 ^ k).
  { destruct (Z.eq_dec k 0) as [Hk0|Hk0].
    - exists (shr_record_of_loc mx lx). split.
      + rewrite shr_fexp_noshift by (fold d; lia). f_equal. lia.
      + rewrite shr_m_of_loc, Hk0. simpl. rewrite Z.div_1_r. reflexivity.
    - destruct (shr_fexp_shift mx ex lx) as [mrs [E1 E2]]; try (fold d; lia).
      exists mrs. fold d in E1, E2. rewrite Hfe in E2. split; [|exact E2].
      rewrite E1. f_equal. lia. }
  destruct H1 as [mrs [E1 E2]].
  set (m' := mx / 2 ^ k) in *.
  assert (Hm' : m' * 2 ^ k <= mx < (m' + 1) * 2 ^ k).
  { unfold m'. pose proof (Z.mul_div_le mx (2 ^ k) Hpk).
    pose proof (Z.mul_succ_div_gt mx (2 ^ k) Hpk). lia. }
  assert (Hm'b : 2 ^ 52 <= m' < 2 ^ 53).
  { split.
    - apply Z.div_le_lower_bound; lia.
    - apply Z.div_lt_upper_bound; lia. }
  unfold binary_round_aux. rewrite E1.
  set (m1 := round_nearest_even (shr_m mrs) (loc_of_shr_record mrs)).
  assert (Hm1 : m1 = m' \/ m1 = m' + 1).
  { unfold m1. rewrite E2. apply round_nearest_even_cases. }
  destruct (Z.eq_dec m1 (2 ^ 53)) as [Hc|Hc].
  - (* the carry reaches 2^53: one more shift *)
    assert (Hd1 : Zdigits2 m1 = 54).
    { rewrite Hc. reflexivity. }
    destruct (shr_fexp_shift m1 (ex + k) loc_Exact) as [mrs2 [F1 F2]].
    + lia.
    + rewrite Hd1, fexp_normal by lia. lia.
    + rewrite Hd1, fexp_normal in F1, F2 by lia.
      rewrite F1, F2.
      replace (54 + (ex + k) - 53 - (ex + k)) with 1 by lia.
      rewrite Hc.
      replace (2 ^ 53 / 2 ^ 1) with (Zpos 4503599627370496) by reflexivity.
      replace (54 + (ex + k) - 53 <=? emax - prec) with true
        by (symmetry; apply Z.leb_le; unfold emax, prec; lia).
      exists 4503599627370496%positive, (54 + (ex + k) - 53).
      split; [reflexivity|]. split; [simpl; lia|]. split; [unfold k; lia|].
      replace (54 + (ex + k) - 53 - ex) with (1 + k) by lia.
      rewrite Z.pow_add_r by lia.
      replace (Z.pos 4503599627370496 * (2 ^ 1 * 2 ^ k)) with (2 ^ 53 * 2 ^ k)
        by (change (2 ^ 53) with (Z.pos 4503599627370496 * 2 ^ 1); ring).
      fold k. rewrite <- Hc. nia.
  - assert (Hm1b : 2 ^ 52 <= m1 < 2 ^ 53) by lia.
    assert (Hd1 : Zdigits2 m1 = 53).
    { apply Zdigits2_unique; simpl in *; lia. }
    rewrite shr_fexp_noshift by (rewrite Hd1, fexp_normal; lia).
    simpl shr_m.
    destruct m1 as [|p1|p1] eqn:Ep; try (simpl in Hm1b; lia).
    replace (ex + k <=? emax - prec) with true
      by (symmetry; apply Z.leb_le; unfold emax, prec, k; lia).
    exists p1, (ex + k).
    split; [reflexivity|]. split; [exact Hm1b|]. split; [unfold k; lia|].
    replace (ex + k - ex) with k by lia. fold k. nia.
Qed.

Lemma Zdigits2_shift (c k : Z) :
  2 ^ 52 <= c < 2 ^ 53 -> 0 <= k -> Zdigits2 (c * 2 ^ k) = 53 + k.
Proof.
  intros Hc Hk.
  assert (Hpk : 0 < 2 ^ k) by (apply Z.pow_pos_nonneg; lia).
  apply Zdigits2_unique; [|simpl in Hc; nia].
  replace (53 + k - 1) with (52 + k) by lia.
  rewrite !Z.pow_add_r by lia. nia.
Qed.

(** Rounding a mantissa whose low [k] bits are zero is exact. *)
Lemma binary_round_aux_exact (sx : bool) (c : positive) (ex k : Z) :
  2 ^ 52 <= Zpos c < 2 ^ 53 -> 0 <= k -> -1074 <= ex + k -> ex + k <= 971 ->
  binary_round_aux prec emax sx (Zpos c * 2 ^ k) ex loc_Exact
  = S754_finite sx c (ex + k).
Proof.
  intros Hc Hk Hlo Hhi.
  pose proof (Zdigits2_shift _ _ Hc Hk) as Hd.
  assert (Hfe : fexp prec emax (Zdigits2 (Zpos c * 2 ^ k) + ex) - ex = k).
  { rewrite Hd, fexp_normal by lia. lia. }
  assert (H1 : shr_fexp prec emax (Zpos c * 2 ^ k) ex loc_Exact
               = (exact_rec (Zpos c), ex + k)).
  { destruct (Z.eq_dec k 0) as [Hk0|Hk0].
    - rewrite shr_fexp_noshift by lia. subst k.
      rewrite Z.pow_0_r, Z.mul_1_r, Z.add_0_r. reflexivity.
    - apply shr_fexp_shift_exact; lia. }
  unfold binary_round_aux. rewrite H1.
  change (round_nearest_even (shr_m (exact_rec (Zpos c)))
            (loc_of_shr_record (exact_rec (Zpos c)))) with (Zpos c).
  assert (Hdc : Zdigits2 (Zpos c) = 53).
  { apply Zdigits2_unique; simpl in *; lia. }
  rewrite shr_fexp_noshift by (rewrite Hdc, fexp_normal; lia).
  simpl shr_m.
  replace (ex + k <=? emax - prec) with true
    by (symmetry; apply Z.leb_le; unfold emax, prec; lia).
  reflexivity.
Qed.

(** *** Normalisation of an integer significand *)

Lemma Zpos_iter_xO (p d : positive) :
  Zpos (Pos.iter xO p d) = Zpos p * 2 ^ Zpos d.
Proof.
  induction d as [|d IH] using Pos.peano_ind.
  - simpl. lia.
  - rewrite Pos.iter_succ, Pos2Z.inj_xO, IH, Pos2Z.inj_succ, Z.pow_succ_r by lia.
    ring.
Qed.

Lemma shl_align_spec (mx : positive) (ex ex' : Z) :
  snd (shl_align mx ex ex') = Z.min ex ex' /\
  Zpos (fst (shl_align mx ex ex')) = Zpos mx * 2 ^ (ex - Z.min ex ex').
Proof.
  unfold shl_align. destruct (ex' - ex) as [|d|d] eqn:E; cbn [fst snd].
  - replace (Z.min ex ex') with ex by lia. rewrite Z.sub_diag, Z.pow_0_r. lia.
  - replace (Z.min ex ex') with ex by lia. rewrite Z.sub_diag, Z.pow_0_r. lia.
  - replace (Z.min ex ex') with ex' by lia.
    rewrite Zpos_iter_xO. split; [reflexivity|]. do 2 f_equal. lia.
Qed.

(** [binary_normalize] returns the normal number [c * 2^t] whenever the
    integer significand it is given denotes that value. *)
Lemma binary_normalize_exact (M : Z) (ez : Z) (c : positive) (t : Z) :
  2 ^ 52 <= Zpos c < 2 ^ 53 -> -1074 <= t <= 971 ->
  (ez <= t /\ M = Zpos c * 2 ^ (t - ez)) \/
  (t <= ez /\ Zpos c = M * 2 ^ (ez - t)) ->
  binary_normalize prec emax M ez false = S754_finite false c t.
Proof.
  intros Hc Ht Hcase.
  assert (HM : 0 < M).
  { destruct Hcase as [[Hle HM]|[Hle HM]].
    - assert (0 < 2 ^ (t - ez)) by (apply Z.pow_pos_nonneg; lia). nia.
    - assert (0 < 2 ^ (ez - t)) by (apply Z.pow_pos_nonneg; lia). nia. }
  destruct M as [|p|p]; try lia.
  unfold binary_normalize, binary_round.
  pose proof (shl_align_spec p ez (fexp prec emax (Zpos (digits2_pos p) + ez)))
    as [Hs1 Hs2].
  destruct (shl_align p ez (fexp prec emax (Z.pos (digits2_pos p) + ez)))
    as [mz ez'] eqn:Esh.
  cbn [fst snd] in Hs1, Hs2.
  change (Zpos (digits2_pos p)) with (Zdigits2 (Zpos p)) in *.
  assert (Hd : Zdigits2 (Zpos p) + ez = 53 + t).
  { destruct Hcase as [[Hle HM']|[Hle HM']].
    - rewrite HM'. rewrite Zdigits2_shift by lia. lia.
    - assert (Hpk : 0 < 2 ^ (ez - t)) by (apply Z.pow_pos_nonneg; lia).
      assert (Zdigits2 (Zpos p) = 53 - (ez - t)); [|lia].
      apply Zdigits2_unique; [|lia].
      assert (E1 : 2 ^ 52 = 2 ^ (53 - (ez - t) - 1) * 2 ^ (ez - t)).
      { rewrite <- Z.pow_add_r; try lia. f_equal; lia.
        (* exponent non-negative *)
        assert (ez - t < 53); [|lia].
        destruct (Z.ltb_spec (ez - t) 53); auto.
        assert (2 ^ 53 <= 2 ^ (ez - t)) by (apply Z.pow_le_mono_r; lia).
        nia. }
      assert (E2 : 2 ^ 53 = 2 ^ (53 - (ez - t)) * 2 ^ (ez - t)).
      { rewrite <- Z.pow_add_r; try lia. f_equal; lia.
        assert (ez - t < 53); [|lia].
        destruct (Z.ltb_spec (ez - t) 53); auto.
        assert (2 ^ 53 <= 2 ^ (ez - t)) by (apply Z.pow_le_mono_r; lia).
        nia. }
      nia. }
  rewrite Hd, fexp_normal in Hs1, Hs2 by lia.
  replace (53 + t - 53) with t in * by lia.
  destruct Hcase as [[Hle HM']|[Hle HM']].
  - replace (Z.min ez t) with ez in * by lia.
    rewrite Z.sub_diag, Z.pow_0_r, Z.mul_1_r in Hs2.
    subst ez'. rewrite Hs2, HM'.
    rewrite binary_round_aux_exact by lia. f_equal. lia.
  - replace (Z.min ez t) with t in * by lia.
    subst ez'. rewrite Hs2, <- HM'.
    replace (Zpos c) with (Zpos c * 2 ^ 0) at 1 by (rewrite Z.pow_0_r; lia).
    rewrite binary_round_aux_exact by lia. f_equal. lia.
Qed.

(** *** Values as rationals *)

Lemma Qpow2_pos (e : Z) : (0 < 2 ^ e)%Q.
Proof. apply Qpower_0_lt. reflexivity. Qed.

Lemma Qpow2_add (a b : Z) : (2 ^ (a + b) == 2 ^ a * 2 ^ b)%Q.
Proof. apply Qpower_plus. discriminate. Qed.

Lemma Qpow2_Z (k : Z) : 0 <= k -> (inject_Z (2 ^ k) == 2 ^ k)%Q.
Proof. intros Hk. apply (Zpower_Qpower 2 k Hk). Qed.

(** Moving a power of two between significand and exponent. *)
Lemma inject_Z_scaled (m V a b : Z) :
  b <= a -> V = m * 2 ^ (a - b) ->
  (inject_Z m * 2 ^ a == inject_Z V * 2 ^ b)%Q.
Proof.
  intros Hab ->. rewrite inject_Z_mult, Qpow2_Z by lia.
  replace a with ((a - b) + b) at 1 by lia.
  rewrite Qpow2_add. ring.
Qed.

(** The number of a positive integer below 2^53: its digits, shifted to
    fill 53 bits. *)
Lemma of_Z_pos (n : Z) :
  0 < n < 2 ^ 53 ->
  exists m : positive,
    of_Z n = S754_finite false m (Zdigits2 n - 53) /\
    2 ^ 52 <= Zpos m < 2 ^ 53 /\
    Zpos m = n * 2 ^ (53 - Zdigits2 n).
Proof.
  intros Hn.
  pose proof (Zdigits2_bounds n ltac:(lia)) as Hb.
  set (d := Zdigits2 n) in *.
  assert (Hd : 1 <= d <= 53).
  { split.
    - destruct (Z.ltb_spec d 1); [|lia].
      assert (2 ^ d <= 2 ^ 0) by
        (destruct (Z.ltb_spec d 0); [rewrite Z.pow_neg_r by lia; simpl; lia
                                    |apply Z.pow_le_mono_r; lia]).
      simpl in *; lia.
    - destruct (Z.ltb_spec 53 d); [|lia].
      assert (2 ^ 53 <= 2 ^ (d - 1)) by (apply Z.pow_le_mono_r; lia). lia. }
  assert (Hp : 0 < 2 ^ (53 - d)) by (apply Z.pow_pos_nonneg; lia).
  assert (E1 : 2 ^ 52 = 2 ^ (d - 1) * 2 ^ (53 - d)).
  { rewrite <- Z.pow_add_r by lia. f_equal; lia. }
  assert (E2 : 2 ^ 53 = 2 ^ d * 2 ^ (53 - d)).
  { rewrite <- Z.pow_add_r by lia. f_equal; lia. }
  assert (Hc : 2 ^ 52 <= n * 2 ^ (53 - d) < 2 ^ 53) by nia.
  destruct (n * 2 ^ (53 - d)) as [|c|c] eqn:Ec; try (simpl in Hc; lia).
  exists c. split; [|split; [exact Hc|reflexivity]].
  unfold of_Z. apply binary_normalize_exact; [exact Hc|lia|].
  right. split; [lia|]. rewrite <- Ec. do 2 f_equal. lia.
Qed.

Lemma val_of_Z (n : Z) : 0 <= n < 2 ^ 53 -> (val (of_Z n) == inject_Z n)%Q.
Proof.
  intros Hn. destruct (Z.eq_dec n 0) as [->|Hn0]; [reflexivity|].
  destruct (of_Z_pos n ltac:(lia)) as [m [E [Hm Hv]]].
  rewrite E. unfold val, cond_Zopp.
  pose proof (Zdigits2_bounds n ltac:(lia)) as Hb.
  assert (Hd : Zdigits2 n <= 53).
  { destruct (Z.ltb_spec 53 (Zdigits2 n)); [|lia].
    assert (2 ^ 53 <= 2 ^ (Zdigits2 n - 1)) by (apply Z.pow_le_mono_r; lia).
    lia. }
  rewrite Hv, inject_Z_mult, Qpow2_Z by lia.
  rewrite <- Qmult_assoc, <- Qpow2_add.
  replace (53 - Zdigits2 n + (Zdigits2 n - 53)) with 0 by lia.
  simpl. ring.
Qed.

(** *** Addition of integers *)

Lemma Zdigits2_mono (a b : Z) : 0 < a <= b -> Zdigits2 a <= Zdigits2 b.
Proof.
  intros Hab.
  pose proof (Zdigits2_bounds a ltac:(lia)) as Ha.
  pose proof (Zdigits2_bounds b ltac:(lia)) as Hb.
  destruct (Z.ltb_spec (Zdigits2 b) (Zdigits2 a)); [|lia].
  assert (2 ^ Zdigits2 b <= 2 ^ (Zdigits2 a - 1)).
  { apply Z.pow_le_mono_r; [lia|]. lia. }
  lia.
Qed.

Lemma Zdigits2_pos (a : Z) : 0 < a -> 1 <= Zdigits2 a.
Proof. destruct a; simpl; lia. Qed.

Lemma Zdigits2_le_53 (a : Z) : 0 < a < 2 ^ 53 -> Zdigits2 a <= 53.
Proof.
  intros Ha. pose proof (Zdigits2_bounds a ltac:(lia)) as Hb.
  destruct (Z.ltb_spec 53 (Zdigits2 a)); [|lia].
  assert (2 ^ 53 <= 2 ^ (Zdigits2 a - 1)) by (apply Z.pow_le_mono_r; lia).
  lia.
Qed.

(** Sums of non-negative integers below 2^53 are computed exactly. *)
Lemma Number_add_of_Z (a b : Z) :
  0 <= a -> 0 <= b -> a + b < 2 ^ 53 ->
  Number_add (of_Z a) (of_Z b) = of_Z (a + b).
Proof.
  intros Ha Hb Hab.
  destruct (Z.eq_dec a 0) as [->|Ha0].
  { destruct (Z.eq_dec b 0) as [->|Hb0]; [reflexivity|].
    destruct (of_Z_pos b ltac:(lia)) as [m [E _]].
    simpl (0 + b). rewrite E. reflexivity. }
  destruct (Z.eq_dec b 0) as [->|Hb0].
  { destruct (of_Z_pos a ltac:(lia)) as [m [E _]].
    rewrite Z.add_0_r, E. reflexivity. }
  destruct (of_Z_pos a ltac:(lia)) as [ma [Ea [Hma Hva]]].
  destruct (of_Z_pos b ltac:(lia)) as [mb [Eb [Hmb Hvb]]].
  destruct (of_Z_pos (a + b) ltac:(lia)) as [mc [Ec [Hmc Hvc]]].
  pose proof (Zdigits2_mono a (a + b) ltac:(lia)) as Hda.
  pose proof (Zdigits2_mono b (a + b) ltac:(lia)) as Hdb.
  pose proof (Zdigits2_pos a ltac:(lia)) as Hpa.
  pose proof (Zdigits2_pos b ltac:(lia)) as Hpb.
  pose proof (Zdigits2_le_53 (a + b) ltac:(lia)) as Hdc.
  rewrite Ea, Eb, Ec.
  set (da := Zdigits2 a) in *. set (db := Zdigits2 b) in *.
  set (dc := Zdigits2 (a + b)) in *.
  unfold Number_add, SFadd, cond_Zopp.
  set (ez := Z.min (da - 53) (db - 53)).
  destruct (shl_align_spec ma (da - 53) ez) as [_ Sa].
  destruct (shl_align_spec mb (db - 53) ez) as [_ Sb].
  rewrite Sa, Sb.
  replace (Z.min (da - 53) ez) with ez by (unfold ez; lia).
  replace (Z.min (db - 53) ez) with ez by (unfold ez; lia).
  apply binary_normalize_exact; [exact Hmc|lia|].
  left. split; [unfold ez; lia|].
  rewrite Hva, Hvb, Hvc.
  rewrite <- !Z.mul_assoc, <- !Z.pow_add_r by (unfold ez; lia).
  replace (53 - da + (da - 53 - ez)) with (- ez) by lia.
  replace (53 - db + (db - 53 - ez)) with (- ez) by lia.
  replace (53 - dc + (dc - 53 - ez)) with (- ez) by lia.
  ring.
Qed.

(** *** Division and multiplication of normal numbers *)

Lemma Zdigits2_normal (m : positive) :
  2 ^ 52 <= Zpos m < 2 ^ 53 -> Zdigits2 (Zpos m) = 53.
Proof. intros H. apply Zdigits2_unique; simpl in *; lia. Qed.

Lemma SFdiv_core_normal (m1 m2 : positive) (e1 e2 : Z) :
  2 ^ 52 <= Zpos m1 < 2 ^ 53 -> 2 ^ 52 <= Zpos m2 < 2 ^ 53 ->
  -1021 <= e1 - e2 ->
  SFdiv_core_binary prec emax (Zpos m1) e1 (Zpos m2) e2
  = (Zpos m1 * 2 ^ 53 / Zpos m2, e1 - e2 - 53,
     new_location (Zpos m2) ((Zpos m1 * 2 ^ 53) mod Zpos m2)).
Proof.
  intros H1 H2 He. unfold SFdiv_core_binary.
  rewrite !Zdigits2_normal by assumption.
  replace (53 + e1 - (53 + e2)) with (e1 - e2) by lia.
  rewrite fexp_normal by lia.
  replace (Z.min (e1 - e2 - 53) (e1 - e2)) with (e1 - e2 - 53) by lia.
  replace (e1 - e2 - (e1 - e2 - 53)) with 53 by lia.
  rewrite Z.shiftl_mul_pow2 by lia.
  unfold Z.div, Z.modulo.
  destruct (Z.div_eucl (Z.pos m1 * 2 ^ 53) (Z.pos m2)) as [q r].
  reflexivity.
Qed.

(** The quotient of two normal numbers, in integers: [V] is the result's
    significand in units of [2^(e1 - e2 - 53)]. *)
Lemma SFdiv_normal (m1 m2 : positive) (e1 e2 : Z) :
  2 ^ 52 <= Zpos m1 < 2 ^ 53 -> 2 ^ 52 <= Zpos m2 < 2 ^ 53 ->
  -1021 <= e1 - e2 <= 1022 ->
  exists (m : positive) (e : Z),
    Number_div (S754_finite false m1 e1) (S754_finite false m2 e2)
      = S754_finite false m e /\
    2 ^ 52 <= Zpos m < 2 ^ 53 /\
    e1 - e2 - 53 <= e <= e1 - e2 - 51 /\
    Zpos m1 * 2 ^ 53 * (2 ^ 52 - 1)
      <= Zpos m * 2 ^ (e - (e1 - e2 - 53)) * Zpos m2 * 2 ^ 52
      <= Zpos m1 * 2 ^ 53 * (2 ^ 52 + 1).
Proof.
  intros H1 H2 He.
  unfold Number_div, SFdiv. cbn [xorb].
  rewrite SFdiv_core_normal by (assumption || lia).
  set (A := Zpos m1 * 2 ^ 53). set (B := Zpos m2).
  assert (HB : 0 < B) by (unfold B; lia).
  pose proof (Z.mul_div_le A B HB) as Hq1.
  pose proof (Z.mul_succ_div_gt A B HB) as Hq2.
  set (q := A / B) in *.
  assert (Hqb : 2 ^ 52 <= q < 2 ^ 54).
  { assert (HA : 2 ^ 52 * 2 ^ 53 <= A < 2 ^ 53 * 2 ^ 53) by (unfold A; lia).
    fold B in H2. change (2 ^ 54) with (2 * 2 ^ 53).
    split.
    - destruct (Z.ltb_spec q (2 ^ 52)); [|lia].
      assert (B * Z.succ q <= B * 2 ^ 52) by (apply Z.mul_le_mono_nonneg_l; lia).
      assert (B * 2 ^ 52 < 2 ^ 53 * 2 ^ 52) by (apply Z.mul_lt_mono_pos_r; lia).
      lia.
    - destruct (Z.ltb_spec q (2 * 2 ^ 53)); [lia|].
      assert (B * (2 * 2 ^ 53) <= B * q) by (apply Z.mul_le_mono_nonneg_l; lia).
      assert (2 ^ 52 * (2 * 2 ^ 53) <= B * (2 * 2 ^ 53))
        by (apply Z.mul_le_mono_nonneg_r; lia).
      lia. }
  assert (Hdq : 53 <= Zdigits2 q <= 54).
  { pose proof (Zdigits2_bounds q ltac:(simpl in *; lia)) as Hb.
    split.
    - destruct (Z.ltb_spec (Zdigits2 q) 53); [|lia].
      assert (2 ^ Zdigits2 q <= 2 ^ 52) by (apply Z.pow_le_mono_r; lia). lia.
    - destruct (Z.ltb_spec 54 (Zdigits2 q)); [|lia].
      assert (2 ^ 54 <= 2 ^ (Zdigits2 q - 1)) by (apply Z.pow_le_mono_r; lia).
      lia. }
  destruct (binary_round_aux_weak false q (e1 - e2 - 53)
              (new_location B (A mod B)))
    as [m [e [E [Hm [He' HV]]]]]; try lia.
  exists m, e. split; [exact E|]. split; [exact Hm|]. split; [lia|].
  pose proof (Zdigits2_bounds q ltac:(simpl in *; lia)) as Hb.
  set (k := Zdigits2 q - 53) in *.
  set (V := Zpos m * 2 ^ (e - (e1 - e2 - 53))) in *.
  assert (Hk : 2 ^ (Zdigits2 q - 1) = 2 ^ 52 * 2 ^ k).
  { rewrite <- Z.pow_add_r by (unfold k; lia). f_equal. unfold k. lia. }
  assert (Hpk : 0 < 2 ^ k) by (apply Z.pow_pos_nonneg; unfold k; lia).
  assert (U1 : V * B <= (q + 2 ^ k) * B)
    by (apply Z.mul_le_mono_nonneg_r; lia).
  assert (U2 : (q - 2 ^ k + 1) * B <= V * B)
    by (apply Z.mul_le_mono_nonneg_r; lia).
  assert (U3 : 2 ^ 52 * 2 ^ k * B <= q * B)
    by (apply Z.mul_le_mono_nonneg_r; lia).
  change (2 ^ 52) with 4503599627370496 in *.
  lia.
Qed.

Lemma new_location_0 (n : Z) : new_location n 0 = loc_Exact.
Proof.
  unfold new_location, new_location_even, new_location_odd.
  destruct (Z.even n); reflexivity.
Qed.

(** A quotient that is itself a normal number is returned unchanged. *)
Lemma SFdiv_exact (m1 m2 c : positive) (e1 e2 t : Z) :
  2 ^ 52 <= Zpos m1 < 2 ^ 53 -> 2 ^ 52 <= Zpos m2 < 2 ^ 53 ->
  2 ^ 52 <= Zpos c < 2 ^ 53 ->
  -1021 <= e1 - e2 -> e1 - e2 - 53 <= t <= 971 ->
  Zpos c * 2 ^ (t - (e1 - e2 - 53)) * Zpos m2 = Zpos m1 * 2 ^ 53 ->
  Number_div (S754_finite false m1 e1) (S754_finite false m2 e2)
  = S754_finite false c t.
Proof.
  intros H1 H2 Hc He Ht Heq.
  unfold Number_div, SFdiv. cbn [xorb].
  rewrite SFdiv_core_normal by (assumption || lia).
  rewrite <- Heq, Z.div_mul, Z.mod_mul, new_location_0 by lia.
  rewrite binary_round_aux_exact by lia.
  f_equal. lia.
Qed.

(** The product of two normal numbers, in integers. *)
Lemma SFmul_normal (m1 m2 : positive) (e1 e2 : Z) :
  2 ^ 52 <= Zpos m1 < 2 ^ 53 -> 2 ^ 52 <= Zpos m2 < 2 ^ 53 ->
  -1126 <= e1 + e2 <= 917 ->
  exists (m : positive) (e : Z),
    Number_mul (S754_finite false m1 e1) (S754_finite false m2 e2)
      = S754_finite false m e /\
    2 ^ 52 <= Zpos m < 2 ^ 53 /\
    e1 + e2 + 52 <= e <= e1 + e2 + 54 /\
    Zpos m1 * Zpos m2 * (2 ^ 52 - 1)
      <= Zpos m * 2 ^ (e - (e1 + e2)) * 2 ^ 52
      <= Zpos m1 * Zpos m2 * (2 ^ 52 + 1).
Proof.
  intros H1 H2 He.
  unfold Number_mul, SFmul. cbn [xorb].
  rewrite Pos2Z.inj_mul.
  set (P := Zpos m1 * Zpos m2).
  assert (HP : 2 ^ 52 * 2 ^ 52 <= P < 2 ^ 53 * 2 ^ 53).
  { unfold P. split.
    - apply Z.mul_le_mono_nonneg; lia.
    - apply Z.mul_lt_mono_nonneg; lia. }
  assert (HdP : 105 <= Zdigits2 P <= 106).
  { pose proof (Zdigits2_bounds P ltac:(lia)) as Hb.
    split.
    - destruct (Z.ltb_spec (Zdigits2 P) 105); [|lia].
      assert (2 ^ Zdigits2 P <= 2 ^ 104) by (apply Z.pow_le_mono_r; lia).
      change (2 ^ 104) with (2 ^ 52 * 2 ^ 52) in *. lia.
    - destruct (Z.ltb_spec 106 (Zdigits2 P)); [|lia].
      assert (2 ^ 106 <= 2 ^ (Zdigits2 P - 1)) by (apply Z.pow_le_mono_r; lia).
      change (2 ^ 106) with (2 ^ 53 * 2 ^ 53) in *. lia. }
  destruct (binary_round_aux_weak false P (e1 + e2) loc_Exact)
    as [m [e [E [Hm [He' HV]]]]]; try lia.
  exists m, e. split; [exact E|]. split; [exact Hm|]. split; [lia|].
  pose proof (Zdigits2_bounds P ltac:(lia)) as Hb.
  set (k := Zdigits2 P - 53) in *.
  set (V := Zpos m * 2 ^ (e - (e1 + e2))) in *.
  assert (Hk : 2 ^ (Zdigits2 P - 1) = 2 ^ 52 * 2 ^ k).
  { rewrite <- Z.pow_add_r by (unfold k; lia). f_equal. unfold k. lia. }
  change (2 ^ 52) with 4503599627370496 in *.
  lia.
Qed.

Lemma pnorm_of_Z (n : Z) : 0 < n < 2 ^ 53 -> pnorm (of_Z n) (-52) 0.
Proof.
  intros Hn. destruct (of_Z_pos n Hn) as [m [E [Hm _]]].
  exists m, (Zdigits2 n - 53). split; [exact E|]. split; [exact Hm|].
  pose proof (Zdigits2_pos n ltac:(lia)).
  pose proof (Zdigits2_le_53 n Hn). lia.
Qed.

Lemma val_pnorm_pos (x : Number) (lo hi : Z) : pnorm x lo hi -> (0 < val x)%Q.
Proof.
  intros [m [e [-> _]]]. unfold val, cond_Zopp.
  apply Qmult_lt_0_compat; [reflexivity|apply Qpow2_pos].
Qed.

(** Division is accurate to one unit in the last place. *)
Lemma Number_div_bound (x y : Number) (l1 h1 l2 h2 : Z) :
  pnorm x l1 h1 -> pnorm y l2 h2 -> -1021 <= l1 - h2 -> h1 - l2 <= 1022 ->
  pnorm (Number_div x y) (l1 - h2 - 53) (h1 - l2 - 51) /\
  (val x * (1 - ulp_rel) <= val (Number_div x y) * val y)%Q /\
  (val (Number_div x y) * val y <= val x * (1 + ulp_rel))%Q.
Proof.
  intros [m1 [e1 [-> [H1 He1]]]] [m2 [e2 [-> [H2 He2]]]] Hlo Hhi.
  destruct (SFdiv_normal m1 m2 e1 e2 H1 H2 ltac:(lia))
    as [m [e [E [Hm [He [Hl Hu]]]]]].
  rewrite E. split.
  { exists m, e. split; [reflexivity|]. split; [exact Hm|lia]. }
  unfold val, cond_Zopp.
  set (V := Zpos m * 2 ^ (e - (e1 - e2 - 53))) in *.
  rewrite (inject_Z_scaled (Zpos m) V e (e1 - e2 - 53)) by (lia || reflexivity).
  assert (Ex : (inject_Z (Zpos m1) * 2 ^ e1
                == inject_Z (Zpos m1 * 2 ^ 53) * 2 ^ (e1 - 53))%Q).
  { apply inject_Z_scaled; [lia|]. do 2 f_equal. lia. }
  assert (Ey : (inject_Z V * 2 ^ (e1 - e2 - 53) * (inject_Z (Zpos m2) * 2 ^ e2)
                == inject_Z (V * Zpos m2) * 2 ^ (e1 - 53))%Q).
  { replace (e1 - 53) with ((e1 - e2 - 53) + e2) by lia.
    rewrite Qpow2_add, inject_Z_mult. ring. }
  rewrite Ex, Ey.
  pose proof (Qpow2_pos (e1 - 53)) as HP.
  set (P := (2 ^ (e1 - 53))%Q) in *.
  assert (Hl' : Zpos m1 * 2 ^ 53 * 2 ^ 52
                <= V * Zpos m2 * 2 ^ 52 + Zpos m1 * 2 ^ 53) by lia.
  assert (Hu' : V * Zpos m2 * 2 ^ 52
                <= Zpos m1 * 2 ^ 53 * 2 ^ 52 + Zpos m1 * 2 ^ 53) by lia.
  clear Hl Hu.
  rewrite Zle_Qle in Hl', Hu'.
  rewrite ?inject_Z_plus, ?inject_Z_mult in Hl', Hu'.
  rewrite !inject_Z_mult.
  set (a := (inject_Z (Zpos m1) * inject_Z (2 ^ 53))%Q) in *.
  set (b := (inject_Z V * inject_Z (Zpos m2))%Q) in *.
  change (inject_Z (2 ^ 52)) with (4503599627370496 # 1)%Q in *.
  change (inject_Z 1) with 1%Q in *.
  unfold ulp_rel.
  split; nra.
Qed.

(** So is multiplication. *)
Lemma Number_mul_bound (x y : Number) (l1 h1 l2 h2 : Z) :
  pnorm x l1 h1 -> pnorm y l2 h2 -> -1126 <= l1 + l2 -> h1 + h2 <= 917 ->
  pnorm (Number_mul x y) (l1 + l2 + 52) (h1 + h2 + 54) /\
  (val x * val y * (1 - ulp_rel) <= val (Number_mul x y))%Q /\
  (val (Number_mul x y) <= val x * val y * (1 + ulp_rel))%Q.
Proof.
  intros [m1 [e1 [-> [H1 He1]]]] [m2 [e2 [-> [H2 He2]]]] Hlo Hhi.
  destruct (SFmul_normal m1 m2 e1 e2 H1 H2 ltac:(lia))
    as [m [e [E [Hm [He [Hl Hu]]]]]].
  rewrite E. split.
  { exists m, e. split; [reflexivity|]. split; [exact Hm|lia]. }
  unfold val, cond_Zopp.
  set (V := Zpos m * 2 ^ (e - (e1 + e2))) in *.
  rewrite (inject_Z_scaled (Zpos m) V e (e1 + e2)) by (lia || reflexivity).
  assert (Exy : (inject_Z (Zpos m1) * 2 ^ e1 * (inject_Z (Zpos m2) * 2 ^ e2)
                 == inject_Z (Zpos m1 * Zpos m2) * 2 ^ (e1 + e2))%Q).
  { rewrite Qpow2_add, inject_Z_mult. ring. }
  rewrite Exy.
  pose proof (Qpow2_pos (e1 + e2)) as HP.
  set (P := (2 ^ (e1 + e2))%Q) in *.
  assert (Hl' : Zpos m1 * Zpos m2 * 2 ^ 52
                <= V * 2 ^ 52 + Zpos m1 * Zpos m2) by lia.
  assert (Hu' : V * 2 ^ 52
                <= Zpos m1 * Zpos m2 * 2 ^ 52 + Zpos m1 * Zpos m2) by lia.
  clear Hl Hu.
  rewrite Zle_Qle in Hl', Hu'.
  rewrite ?inject_Z_plus, ?inject_Z_mult in Hl', Hu'.
  rewrite !inject_Z_mult.
  set (a := (inject_Z (Zpos m1) * inject_Z (Zpos m2))%Q) in *.
  set (b := inject_Z V) in *.
  change (inject_Z (2 ^ 52)) with (4503599627370496 # 1)%Q in *.
  unfold ulp_rel.
  split; nra.
Qed.

(** When the exact quotient is a normal number, division returns it. *)
Lemma Number_div_exact (x y z : Number) (l1 h1 l2 h2 l3 h3 : Z) :
  pnorm x l1 h1 -> pnorm y l2 h2 -> pnorm z l3 h3 ->
  -1021 <= l1 - h2 -> h3 <= 971 ->
  (val z * val y == val x)%Q ->
  Number_div x y = z.
Proof.
  intros [m1 [e1 [-> [H1 He1]]]] [m2 [e2 [-> [H2 He2]]]]
         [c [t [-> [Hc Ht]]]] Hlo Hhi Hv.
  unfold val, cond_Zopp in Hv.
  set (j := t - (e1 - e2 - 53)).
  assert (Hq : (inject_Z (Zpos c * Zpos m2) * 2 ^ j
                == inject_Z (Zpos m1 * 2 ^ 53))%Q).
  { rewrite !inject_Z_mult. rewrite (Qpow2_Z 53) by lia.
    assert (E1 : (2 ^ j == 2 ^ t * 2 ^ e2 * 2 ^ (53 - e1))%Q).
    { replace j with (t + e2 + (53 - e1)) by (unfold j; lia).
      rewrite !Qpow2_add. reflexivity. }
    assert (E2 : (2 ^ 53 == 2 ^ e1 * 2 ^ (53 - e1))%Q).
    { replace 53 with (e1 + (53 - e1)) at 1 by lia.
      rewrite Qpow2_add. reflexivity. }
    rewrite E1, E2.
    transitivity ((inject_Z (Zpos c) * 2 ^ t * (inject_Z (Zpos m2) * 2 ^ e2))
                  * 2 ^ (53 - e1))%Q; [ring|].
    rewrite Hv. ring. }
  assert (HP : 2 ^ 52 * 2 ^ 52 <= Zpos c * Zpos m2 < 2 ^ 53 * 2 ^ 53).
  { split.
    - apply Z.mul_le_mono_nonneg; lia.
    - apply Z.mul_lt_mono_nonneg; lia. }
  assert (Hj : 0 <= j).
  { destruct (Z.ltb_spec j 0) as [Hneg|]; [exfalso|assumption].
    assert (Hhalf : (2 ^ j <= 1 # 2)%Q).
    { replace j with (- (- j)) by lia. rewrite Qpower_opp.
      rewrite <- Qpow2_Z by lia.
      assert (2 ^ 1 <= 2 ^ (- j)) by (apply Z.pow_le_mono_r; lia).
      assert (Hz : 2 <= 2 ^ (- j)) by (simpl in *; lia).
      rewrite Zle_Qle in Hz.
      assert (0 < inject_Z (2 ^ (- j)))%Q by (change 0%Q with (inject_Z 0);
        rewrite <- Zlt_Qlt; lia).
      apply Qle_shift_inv_r; [assumption|].
      change (inject_Z 2) with 2%Q in Hz. lra. }
    assert (Hlt : Zpos c * Zpos m2 < 2 * (Zpos m1 * 2 ^ 53)).
    { change (2 ^ 53 * 2 ^ 53) with (2 * (2 ^ 52 * 2 ^ 53)) in HP.
      assert (2 ^ 52 * 2 ^ 53 <= Zpos m1 * 2 ^ 53)
        by (apply Z.mul_le_mono_nonneg_r; lia).
      lia. }
    assert (Hpos : 0 < Zpos c * Zpos m2) by lia.
    rewrite Zlt_Qlt in Hlt, Hpos.
    rewrite (inject_Z_mult 2) in Hlt.
    change (inject_Z 2) with 2%Q in Hlt. change (inject_Z 0) with 0%Q in Hpos.
    pose proof (Qpow2_pos j) as Hjp.
    set (a := inject_Z (Zpos c * Zpos m2)) in *.
    set (b := inject_Z (Zpos m1 * 2 ^ 53)) in *.
    set (p := (2 ^ j)%Q) in *.
    nra. }
  rewrite <- Qpow2_Z, <- inject_Z_mult in Hq by exact Hj.
  apply (proj1 (inject_Z_injective _ _)) in Hq.
  apply SFdiv_exact; try assumption; try lia.
  fold j. lia.
Qed.

(** *** [Math.round]

    A normal number within one half of the integer [K] (the lower end
    included) is rounded to [K]. *)

Lemma Math_round_nearest (x : Number) (lo hi K : Z) :
  pnorm x lo hi -> 0 <= K < 2 ^ 53 ->
  (inject_Z K - (1 # 2) <= val x)%Q -> (val x < inject_Z K + (1 # 2))%Q ->
  Math_round x = of_Z K.
Proof.
  intros [m [e [-> [Hm He]]]] HK Hl Hu.
  unfold val, cond_Zopp in Hl, Hu. unfold Math_round, cond_Zopp.
  destruct (Z.leb_spec 0 e) as [Hpos|Hneg].
  - (* an integer already *)
    rewrite <- Qpow2_Z, <- inject_Z_mult in Hl, Hu by exact Hpos.
    assert (HM : Zpos m * 2 ^ e = K).
    { assert (2 * K - 1 <= 2 * (Zpos m * 2 ^ e)).
      { rewrite Zle_Qle, !inject_Z_mult.
        assert (E : inject_Z (2 * K - 1) = (2 * inject_Z K + - (1))%Q).
        { replace (2 * K - 1) with (2 * K + - (1)) by lia.
          rewrite inject_Z_plus, inject_Z_mult, inject_Z_opp. reflexivity. }
        rewrite E. rewrite inject_Z_mult in Hl. change (inject_Z 2) with 2%Q.
        lra. }
      assert (2 * (Zpos m * 2 ^ e) < 2 * K + 1).
      { rewrite Zlt_Qlt, inject_Z_plus, !inject_Z_mult.
        rewrite inject_Z_mult in Hu. change (inject_Z 2) with 2%Q.
        change (inject_Z 1) with 1%Q. lra. }
      lia. }
    assert (He0 : e = 0).
    { destruct (Z.eq_dec e 0); [assumption|exfalso].
      assert (2 ^ 1 <= 2 ^ e) by (apply Z.pow_le_mono_r; lia).
      change (2 ^ 1) with 2 in *.
      assert (2 ^ 52 * 2 <= Zpos m * 2 ^ e)
        by (apply Z.mul_le_mono_nonneg; lia).
      change (2 ^ 53) with (2 ^ 52 * 2) in HK. lia. }
    subst e. rewrite Z.pow_0_r, Z.mul_1_r in HM. subst K.
    destruct (of_Z_pos (Zpos m) ltac:(lia)) as [m' [E [_ Hv]]].
    rewrite E. rewrite (Zdigits2_normal m Hm) in *.
    change (2 ^ (53 - 53)) with 1 in Hv.
    assert (m' = m) by lia. subst m'. reflexivity.
  - set (D := 2 ^ (- e)).
    assert (HD : 0 < D) by (apply Z.pow_pos_nonneg; lia).
    assert (HDq : (inject_Z (Zpos m) * 2 ^ e * inject_Z D == inject_Z (Zpos m))%Q).
    { unfold D. rewrite Qpow2_Z by lia. rewrite <- Qmult_assoc, <- Qpow2_add.
      replace (e + - e) with 0 by lia. simpl. ring. }
    assert (HDp : (0 < inject_Z D)%Q).
    { change 0%Q with (inject_Z 0). rewrite <- Zlt_Qlt. exact HD. }
    set (v := (inject_Z (Zpos m) * 2 ^ e)%Q) in *.
    assert (H1 : (2 * K - 1) * D <= 2 * Zpos m).
    { rewrite Zle_Qle, !inject_Z_mult.
      assert (E : inject_Z (2 * K - 1) = (2 * inject_Z K + - (1))%Q).
      { replace (2 * K - 1) with (2 * K + - (1)) by lia.
        rewrite inject_Z_plus, inject_Z_mult, inject_Z_opp. reflexivity. }
      rewrite E. change (inject_Z 2) with 2%Q.
      set (d := inject_Z D) in *. set (k := inject_Z K) in *.
      set (mq := inject_Z (Zpos m)) in *. nra. }
    assert (H2 : 2 * Zpos m < (2 * K + 1) * D).
    { rewrite Zlt_Qlt, !inject_Z_mult, inject_Z_plus, inject_Z_mult.
      change (inject_Z 2) with 2%Q. change (inject_Z 1) with 1%Q.
      set (d := inject_Z D) in *. set (k := inject_Z K) in *.
      set (mq := inject_Z (Zpos m)) in *. nra. }
    assert (Hk : Z.shiftr (2 * Zpos m + D) (1 - e) = K).
    { rewrite Z.shiftr_div_pow2 by lia.
      replace (1 - e) with (1 + - e) by lia.
      rewrite Z.pow_add_r by lia. fold D. change (2 ^ 1) with 2.
      symmetry. apply (Z.div_unique _ _ _ (2 * Zpos m + D - 2 * D * K)); [lia|].
      lia. }
    rewrite Hk.
    destruct (Z.eqb_spec K 0) as [->|]; reflexivity.
Qed.

(** *** The two computations of the dashboard *)

Lemma inject_Z_pos_lt (a b : Z) : a < b -> (inject_Z a < inject_Z b)%Q.
Proof. intros H. rewrite <- Zlt_Qlt. exact H. Qed.

(** [Math.round((n / 20) * 100)] on binary64 numbers, for every array
    length [n]. *)
Lemma round_percent_exact (n : Z) :
  0 <= n < 2 ^ 32 ->
  Math_round (Number_mul (Number_div (of_Z n) (of_Z 20)) (of_Z 100))
  = of_Z (5 * n).
Proof.
  intros Hn. destruct (Z.eq_dec n 0) as [->|Hn0]; [reflexivity|].
  assert (Hn53 : 0 < n < 2 ^ 53).
  { change (2 ^ 53) with (2 ^ 32 * 2 ^ 21). lia. }
  pose proof (pnorm_of_Z n Hn53) as Px.
  pose proof (pnorm_of_Z 20 ltac:(simpl; lia)) as Py.
  pose proof (pnorm_of_Z 100 ltac:(simpl; lia)) as Pc.
  destruct (Number_div_bound _ _ _ _ _ _ Px Py ltac:(lia) ltac:(lia))
    as [Pq [Hql Hqu]].
  destruct (Number_mul_bound _ _ _ _ _ _ Pq Pc ltac:(lia) ltac:(lia))
    as [Pr [Hrl Hru]].
  rewrite (val_of_Z n) in Hql, Hqu by lia.
  rewrite (val_of_Z 20) in Hql, Hqu by (simpl; lia).
  rewrite (val_of_Z 100) in Hrl, Hru by (simpl; lia).
  pose proof (inject_Z_pos_lt 0 n ltac:(lia)) as Hn1.
  pose proof (inject_Z_pos_lt n (2 ^ 32) ltac:(lia)) as Hn2.
  change (inject_Z 0) with 0%Q in Hn1.
  change (inject_Z (2 ^ 32)) with (4294967296 # 1)%Q in Hn2.
  change (inject_Z 20) with 20%Q in *. change (inject_Z 100) with 100%Q in *.
  unfold ulp_rel in *.
  set (q := val (Number_div (of_Z n) (of_Z 20))) in *.
  set (r := val (Number_mul (Number_div (of_Z n) (of_Z 20)) (of_Z 100))) in *.
  apply (Math_round_nearest _ _ _ (5 * n) Pr).
  - change (2 ^ 53) with 9007199254740992.
    change (2 ^ 32) with 4294967296 in Hn. lia.
  - rewrite inject_Z_mult. change (inject_Z 5) with 5%Q. fold r. lra.
  - rewrite inject_Z_mult. change (inject_Z 5) with 5%Q. fold r. lra.
Qed.

(** [Math.round(S / N)] on binary64 numbers is the exactly rounded mean as
    long as the sum stays below 2^51. *)
Lemma round_quotient_exact (S N : Z) :
  0 <= S < 2 ^ 51 -> 0 < N < 2 ^ 53 ->
  Math_round (Number_div (of_Z S) (of_Z N)) = of_Z (round_half_up_div S N).
Proof.
  intros HS HN. unfold round_half_up_div.
  destruct (Z.eq_dec S 0) as [->|HS0].
  { destruct (of_Z_pos N HN) as [m [E _]]. rewrite E.
    replace ((2 * 0 + N) / (2 * N)) with 0; [reflexivity|].
    symmetry. apply Z.div_small. lia. }
  assert (HS53 : 0 < S < 2 ^ 53).
  { change (2 ^ 53) with (2 ^ 51 * 4). lia. }
  set (K := (2 * S + N) / (2 * N)).
  assert (HK1 : 2 * N * K <= 2 * S + N).
  { apply Z.mul_div_le. lia. }
  assert (HK2 : 2 * S + N < 2 * N * (K + 1)).
  { apply (Z.mul_succ_div_gt (2 * S + N) (2 * N)). lia. }
  assert (HK0 : 0 <= K) by (apply Z.div_pos; lia).
  assert (HKS : K <= S).
  { destruct (Z.leb_spec K S); [assumption|].
    assert (2 * N * (S + 1) <= 2 * N * K) by (apply Z.mul_le_mono_nonneg_l; lia).
    nia. }
  pose proof (pnorm_of_Z S HS53) as Px.
  pose proof (pnorm_of_Z N HN) as Py.
  destruct (Number_div_bound _ _ _ _ _ _ Px Py ltac:(lia) ltac:(lia))
    as [Pq [Hql Hqu]].
  rewrite (val_of_Z S) in Hql, Hqu by lia.
  rewrite (val_of_Z N) in Hql, Hqu by lia.
  pose proof (inject_Z_pos_lt 0 N ltac:(lia)) as HNq.
  pose proof (inject_Z_pos_lt S (2 ^ 51) ltac:(lia)) as HSq.
  change (inject_Z 0) with 0%Q in HNq.
  change (inject_Z (2 ^ 51)) with (2251799813685248 # 1)%Q in HSq.
  pose proof (inject_Z_pos_lt 0 S ltac:(lia)) as HSp.
  change (inject_Z 0) with 0%Q in HSp.
  unfold ulp_rel in *.
  assert (HK53 : 0 <= K < 2 ^ 53) by lia.
  destruct (Z.eq_dec (2 * N * K) (2 * S + N)) as [Htie|Hnt].
  - (* the mean is exactly K - 1/2 *)
    assert (HK1' : 1 <= K) by nia.
    assert (Hodd : 0 < 2 * K - 1 < 2 ^ 53) by lia.
    destruct (of_Z_pos (2 * K - 1) Hodd) as [c [Ec [Hc Hvc]]].
    set (z := S754_finite false c (Zdigits2 (2 * K - 1) - 53 - 1)).
    pose proof (Zdigits2_pos (2 * K - 1) ltac:(lia)) as Hd1.
    pose proof (Zdigits2_le_53 (2 * K - 1) Hodd) as Hd2.
    assert (Pz : pnorm z (-53) (-1)).
    { exists c, (Zdigits2 (2 * K - 1) - 53 - 1).
      split; [reflexivity|]. split; [exact Hc|lia]. }
    assert (Hvz : (val z == inject_Z K - (1 # 2))%Q).
    { pose proof (val_of_Z (2 * K - 1) ltac:(lia)) as Hv.
      rewrite Ec in Hv. unfold z, val, cond_Zopp in *.
      replace (Zdigits2 (2 * K - 1) - 53 - 1)
        with ((Zdigits2 (2 * K - 1) - 53) + -1) by lia.
      rewrite Qpow2_add, Qmult_assoc, Hv.
      replace (2 * K - 1) with (2 * K + - (1)) by lia.
      rewrite inject_Z_plus, inject_Z_mult, inject_Z_opp.
      change (2 ^ (-1))%Q with (1 # 2)%Q.
      change (inject_Z 2) with 2%Q. change (inject_Z 1) with 1%Q. field. }
    assert (Hzy : (val z * val (of_Z N) == val (of_Z S))%Q).
    { rewrite Hvz, (val_of_Z N), (val_of_Z S) by lia.
      assert (E : (inject_Z (2 * N * K) == inject_Z (2 * S + N))%Q)
        by (rewrite Htie; reflexivity).
      rewrite inject_Z_plus, !inject_Z_mult in E.
      change (inject_Z 2) with 2%Q in E. lra. }
    rewrite (Number_div_exact _ _ z _ _ _ _ _ _ Px Py Pz ltac:(lia) ltac:(lia) Hzy).
    apply (Math_round_nearest _ _ _ K Pz HK53); rewrite Hvz; lra.
  - assert (HK1' : 2 * N * K + 1 <= 2 * S + N) by lia.
    assert (HK2' : 2 * S + N + 1 <= 2 * N * (K + 1)) by lia.
    rewrite Zle_Qle in HK1', HK2'.
    rewrite ?inject_Z_plus, ?inject_Z_mult in HK1', HK2'.
    change (inject_Z 2) with 2%Q in *. change (inject_Z 1) with 1%Q in *.
    rewrite ?inject_Z_plus in HK2'. change (inject_Z 1) with 1%Q in *.
    set (q := val (Number_div (of_Z S) (of_Z N))) in *.
    set (s := inject_Z S) in *. set (nn := inject_Z N) in *.
    set (k := inject_Z K) in *.
    apply (Math_round_nearest _ _ _ K Pq HK53); fold k.
    + assert ((nn * (k - (1 # 2)) <= nn * q)%Q) by lra.
      apply Qnot_lt_le. intros Hc. 
      assert ((nn * q < nn * (k - (1 # 2)))%Q) by (apply Qmult_lt_l; assumption).
      lra.
    + assert ((nn * q < nn * (k + (1 # 2)))%Q) by lra.
      apply Qnot_le_lt. intros Hc.
      assert ((nn * (k + (1 # 2)) <= nn * q)%Q)
        by (apply Qmult_le_l; assumption).
      lra.
Qed.

End Binary64Facts.

(** ** Exact rounding *)

Section ExactFacts.
Local Open Scope Z_scope.

Lemma Qfloor_unique (x : Q) (k : Z) :
  (inject_Z k <= x)%Q -> (x < inject_Z (k + 1))%Q -> Qfloor x = k.
Proof.
  intros Hl Hu.
  pose proof (Qfloor_le x) as Fl. pose proof (Qlt_floor x) as Fu.
  assert (H1 : (inject_Z (Qfloor x) < inject_Z (k + 1))%Q)
    by (eapply Qle_lt_trans; eassumption).
  assert (H2 : (inject_Z k < inject_Z (Qfloor x + 1))%Q)
    by (eapply Qle_lt_trans; eassumption).
  rewrite <- Zlt_Qlt in H1, H2. lia.
Qed.

Lemma round_nearest_integer (x : Q) (k : Z) :
  (x == inject_Z k)%Q -> round_nearest x = k.
Proof.
  intros Hx. unfold round_nearest. apply Qfloor_unique.
  - rewrite Hx. lra.
  - rewrite Hx, inject_Z_plus. change (inject_Z 1) with 1%Q. lra.
Qed.

Lemma round_nearest_percent (n : Z) :
  round_nearest (inject_Z n / 20 * 100) = 5 * n.
Proof.
  apply round_nearest_integer.
  rewrite inject_Z_mult. change (inject_Z 5) with 5%Q. field.
Qed.

Lemma round_nearest_div (S N : Z) :
  0 < N ->
  round_nearest (inject_Z S / inject_Z N) = round_half_up_div S N.
Proof.
  intros HN. unfold round_nearest, round_half_up_div.
  set (K := (2 * S + N) / (2 * N)).
  assert (HK1 : 2 * N * K <= 2 * S + N) by (apply Z.mul_div_le; lia).
  assert (HK2 : 2 * S + N < 2 * N * (K + 1))
    by (apply (Z.mul_succ_div_gt (2 * S + N) (2 * N)); lia).
  assert (HNq : (0 < inject_Z N)%Q)
    by (change 0%Q with (inject_Z 0); rewrite <- Zlt_Qlt; exact HN).
  assert (Hx : (inject_Z N * (inject_Z S / inject_Z N) == inject_Z S)%Q).
  { field. intros Hz. rewrite Hz in HNq. discriminate. }
  rewrite Zle_Qle in HK1. rewrite Zlt_Qlt in HK2.
  rewrite ?inject_Z_plus, ?inject_Z_mult in HK1, HK2.
  rewrite inject_Z_plus in HK2.
  change (inject_Z 2) with 2%Q in *. change (inject_Z 1) with 1%Q in *.
  set (x := (inject_Z S / inject_Z N)%Q) in *.
  set (s := inject_Z S) in *. set (nn := inject_Z N) in *.
  apply Qfloor_unique.
  - fold K. set (k := inject_Z K) in *.
    apply Qnot_lt_le. intros Hc.
    assert ((nn * (x + (1 # 2)) < nn * k)%Q) by (apply Qmult_lt_l; assumption).
    lra.
  - fold K. rewrite inject_Z_plus. change (inject_Z 1) with 1%Q.
    set (k := inject_Z K) in *.
    apply Qnot_le_lt. intros Hc.
    assert ((nn * (k + 1) <= nn * (x + (1 # 2)))%Q)
      by (apply Qmult_le_l; assumption).
    lra.
Qed.

Lemma mean_rounded_div (ks : list Z) :
  ks <> [] ->
  mean_rounded ks = round_half_up_div (Zsum ks) (Z.of_nat (List.length ks)).
Proof.
  intros Hne. destruct ks as [|k ks]; [congruence|].
  unfold mean_rounded. apply round_nearest_div. simpl List.length. lia.
Qed.

End ExactFacts.

(** ** The dashboard: progress and aggregates *)

Import Js Dashboard.

Section ProgressFacts.
Context {host : JsHost}.
Local Open Scope Z_scope.

Lemma progress_of_badge_count (p : ParticipantData.t) :
  Z.of_nat (List.length (ParticipantData.badges p)) < 2 ^ 32 ->
  Participant.progress (formatParticipant p)
  = of_Z (5 * Z.of_nat (List.length (ParticipantData.badges p))).
Proof.
  intros Hn. unfold formatParticipant, Number_of_length; cbn [Participant.progress].
  apply round_percent_exact. lia.
Qed.

(** Before [Math.round] the product is not always the integer: 22 badges
    give 110.00000000000001. *)
Lemma product_before_rounding :
  Number_mul (Number_div (of_Z 22) (of_Z 20)) (of_Z 100) <> of_Z 110 /\
  Math_round (Number_mul (Number_div (of_Z 22) (of_Z 20)) (of_Z 100))
  = of_Z 110.
Proof. split; [vm_compute; discriminate|reflexivity]. Qed.

(** A fetched view list carries integral progress values. *)
Lemma fetched_progress_integral (raw : list ParticipantData.t) :
  Forall (fun p => Z.of_nat (List.length (ParticipantData.badges p)) < 2 ^ 32)
         raw ->
  integral_progress (map formatParticipant raw) (map badge_percent raw).
Proof.
  induction 1 as [|p raw Hp _ IH]; cbn [map]; constructor; [|exact IH].
  split; [apply progress_of_badge_count; exact Hp|unfold badge_percent; lia].
Qed.

End ProgressFacts.

Section AggregateFacts.
Local Open Scope Z_scope.

Lemma Zsum_nonneg (ps : list Participant.t) (ks : list Z) :
  integral_progress ps ks -> 0 <= Zsum ks.
Proof.
  induction 1 as [|p k ps ks [_ Hk] _ IH]; simpl; lia.
Qed.

Lemma fold_progress_sum (ps : list Participant.t) (ks : list Z) :
  integral_progress ps ks ->
  forall a, 0 <= a -> a + Zsum ks < 2 ^ 53 ->
    fold_left (fun acc p => Number_add acc (Participant.progress p)) ps (of_Z a)
    = of_Z (a + Zsum ks).
Proof.
  induction 1 as [|p k ps ks [Hp Hk] Hrest IH]; intros a Ha Hsum; simpl.
  - f_equal. lia.
  - pose proof (Zsum_nonneg _ _ Hrest) as Hnn.
    simpl in Hsum. rewrite Hp, Number_add_of_Z by lia.
    rewrite IH by lia. f_equal. lia.
Qed.

Lemma avg_of_integral_progress (s : State) (ks : list Z) :
  integral_progress (participants s) ks ->
  Zsum ks < 2 ^ 51 ->
  Z.of_nat (List.length (participants s)) < 2 ^ 32 ->
  avg s = of_Z (mean_rounded ks).
Proof.
  intros Hint Hsum Hlen. unfold avg.
  pose proof (Forall2_length Hint) as Hl.
  destruct (participants s) as [|p ps] eqn:Eps.
  - inversion Hint; subst. reflexivity.
  - destruct ks as [|k ks]; [inversion Hint|].
    pose proof (Zsum_nonneg _ _ Hint) as Hnn.
    assert (H53 : 2 ^ 51 < 2 ^ 53) by reflexivity.
    assert (H32 : 2 ^ 32 < 2 ^ 53) by reflexivity.
    change (fold_left _ (p :: ps) (of_Z 0)) with
      (fold_left (fun acc q => Number_add acc (Participant.progress q))
                 (p :: ps) (of_Z 0)).
    rewrite (fold_progress_sum _ _ Hint 0) by lia.
    rewrite Z.add_0_l. unfold Number_of_length.
    rewrite round_quotient_exact by (simpl List.length in *; lia).
    rewrite mean_rounded_div by discriminate.
    rewrite Hl. reflexivity.
Qed.

Lemma avg_depends_on_progress_only (s1 s2 : State) :
  map Participant.progress (participants s1)
  = map Participant.progress (participants s2) ->
  avg s1 = avg s2.
Proof.
  intros Hmap. unfold avg.
  assert (Hlen : List.length (participants s1) = List.length (participants s2)).
  { rewrite <- (length_map Participant.progress (participants s1)), Hmap.
    apply length_map. }
  assert (Hfold : forall ps a,
             fold_left (fun acc p => Number_add acc (Participant.progress p)) ps a
             = fold_left Number_add (map Participant.progress ps) a).
  { induction ps as [|p ps IH]; intros a; simpl; [reflexivity|apply IH]. }
  rewrite !Hfold, Hmap, Hlen. reflexivity.
Qed.

End AggregateFacts.

(** ** The fetch cycle *)

Section FetchFacts.
Context {host : JsHost}.

Lemma fetch_try_success (data : ResponseData) :
  fetch_try (inr {| ok := true; json := inr data |})
  = inr (map formatParticipant (participants_or_empty data)).
Proof. reflexivity. Qed.

Lemma fetchParticipants_success (data : ResponseData) (s : State) :
  fetchParticipants (inr {| ok := true; json := inr data |}) s
  = {| query := query s;
       connected := true;
       participants := map formatParticipant (participants_or_empty data);
       error := None |}.
Proof. reflexivity. Qed.

Lemma fetchParticipants_failure (o : FetchOutcome) (err : Thrown) (s : State) :
  fetch_try o = inl err ->
  fetchParticipants o s
  = {| query := query s;
       connected := false;
       participants := participants s;
       error := Some (error_message err) |}.
Proof. intros H. unfold fetchParticipants. rewrite H. reflexivity. Qed.

(** The three ways the [try] block fails, and no other. *)
Lemma fetch_try_failure_cases (o : FetchOutcome) (err : Thrown) :
  fetch_try o = inl err <->
  o = inl err \/
  (exists r, o = inr r /\ ok r = false /\
             err = ErrorObject (js "Failed to fetch participants")) \/
  (exists r, o = inr r /\ ok r = true /\ json r = inl err).
Proof.
  unfold fetch_try, bind, throw, ret. split.
  - destruct o as [e|r]; simpl; intros H.
    + inversion H; subst. auto.
    + destruct r as [b j]. destruct b; simpl in H.
      * destruct j as [e|d]; inversion H; subst. right; right. eauto.
      * inversion H; subst. right; left. eauto.
  - intros [->|[[r [-> [Hok ->]]]|[r [-> [Hok Hj]]]]]; simpl.
    + reflexivity.
    + rewrite Hok. reflexivity.
    + rewrite Hok, Hj. reflexivity.
Qed.

End FetchFacts.

(** ** Claims about the dashboard *)

(** C1: for a raw participant with [n] badges the derived progress is
    [round (n / 20 * 100)], which is [5 * n] and is not capped at 100:
    5 badges give 25, none give 0, 20 give 100 and 22 give 110.  The
    number [n] is the length of an array, hence below 2^32. *)
Theorem C1_progress_is_rounded_percentage :
  forall (host : JsHost) (p : ParticipantData.t),
    let n := Z.of_nat (List.length (ParticipantData.badges p)) in
    (n < 2 ^ 32)%Z ->
    Participant.progress (formatParticipant p)
      = of_Z (round_nearest (inject_Z n / 20 * 100)) /\
    round_nearest (inject_Z n / 20 * 100) = (5 * n)%Z /\
    (n = 5%Z -> Participant.progress (formatParticipant p) = of_Z 25) /\
    (n = 0%Z -> Participant.progress (formatParticipant p) = of_Z 0) /\
    (n = 20%Z -> Participant.progress (formatParticipant p) = of_Z 100) /\
    (n = 22%Z -> Participant.progress (formatParticipant p) = of_Z 110).
Proof.
  intros host p n Hn.
  pose proof (progress_of_badge_count p Hn) as Hp. fold n in Hp.
  rewrite round_nearest_percent.
  repeat split; try exact Hp; intros E; rewrite Hp, E; reflexivity.
Qed.

(** C1 at a participant holding 22 badges. *)
Lemma C1_witness :
  (Z.of_nat (List.length (ParticipantData.badges (sample_raw "Ana" 22 true)))
   < 2 ^ 32)%Z /\
  Participant.progress (@formatParticipant ascii_host (sample_raw "Ana" 22 true))
  = of_Z 110.
Proof.
  assert (H : (Z.of_nat (List.length
                 (ParticipantData.badges (sample_raw "Ana" 22 true)))
               < 2 ^ 32)%Z) by reflexivity.
  split; [exact H|].
  apply (C1_progress_is_rounded_percentage ascii_host _ H). reflexivity.
Defined.

(** C5: the average-progress aggregate is the arithmetic mean of the
    progress values of all participants of the view list, rounded to the
    nearest integer; it is zero for the empty list and 50 for the values
    0, 50 and 100; the online flags play no part.  Progress values are the
    non-negative integers a fetch produces (last part), their sum below
    2^51 and the list an array. *)
Theorem C5_average_progress :
  (forall (s : State) (ks : list Z),
      integral_progress (participants s) ks ->
      (Zsum ks < 2 ^ 51)%Z ->
      (Z.of_nat (List.length (participants s)) < 2 ^ 32)%Z ->
      avg s = of_Z (mean_rounded ks)) /\
  (forall s : State, participants s = [] -> avg s = of_Z 0) /\
  (forall s : State,
      map Participant.progress (participants s)
      = [of_Z 0; of_Z 50; of_Z 100] ->
      avg s = of_Z 50) /\
  (forall s1 s2 : State,
      map Participant.progress (participants s1)
      = map Participant.progress (participants s2) ->
      avg s1 = avg s2) /\
  (forall (host : JsHost) (s : State) (data : ResponseData),
      let raw := participants_or_empty data in
      Forall (fun p =>
                (Z.of_nat (List.length (ParticipantData.badges p)) < 2 ^ 32)%Z)
             raw ->
      (Zsum (map badge_percent raw) < 2 ^ 51)%Z ->
      (Z.of_nat (List.length raw) < 2 ^ 32)%Z ->
      avg (fetchParticipants (inr {| ok := true; json := inr data |}) s)
      = of_Z (mean_rounded (map badge_percent raw))).
Proof.
  split; [exact avg_of_integral_progress|].
  split; [intros s Hs; unfold avg; rewrite Hs; reflexivity|].
  split; [|split; [exact avg_depends_on_progress_only|]].
  2: { intros host s data raw Hraw Hsum Hlen.
       rewrite fetchParticipants_success.
       apply avg_of_integral_progress; cbn [participants]; fold raw.
       - apply fetched_progress_integral. exact Hraw.
       - exact Hsum.
       - rewrite length_map. exact Hlen. }
  intros s Hs.
  rewrite (avg_depends_on_progress_only s sample_state) by exact Hs.
  rewrite (avg_of_integral_progress sample_state [0; 50; 100]%Z).
  - reflexivity.
  - repeat constructor; simpl; lia.
  - reflexivity.
  - reflexivity.
Qed.

(** C5 at the sample state, whose progress values are 0, 50 and 100. *)
Lemma C5_witness :
  integral_progress (participants sample_state) [0; 50; 100]%Z /\
  avg sample_state = of_Z (mean_rounded [0; 50; 100]%Z).
Proof.
  assert (H : integral_progress (participants sample_state) [0; 50; 100]%Z).
  { repeat constructor; simpl; lia. }
  split; [exact H|].
  apply (proj1 C5_average_progress sample_state _ H); reflexivity.
Defined.


(** C2: a successful fetch replaces the view list by the image under
    [formatParticipant] of the list the body carries in its
    [participants] field, and by the empty list when the field is absent:
    same length, same order, identifier, name and online flag carried
    over, badges reduced to their identifiers; the result does not depend
    on the state before the fetch. *)
Theorem C2_view_list_is_map_of_fetch :
  forall (host : JsHost) (s : State) (data : ResponseData),
    let raw := match participants_field data with
               | Some l => l
               | None => []
               end in
    let s' := fetchParticipants (inr {| ok := true; json := inr data |}) s in
    (forall l : list ParticipantData.t,
        participants_field data = Some l ->
        participants s' = map formatParticipant l) /\
    (participants_field data = None -> participants s' = []) /\
    participants s' = map formatParticipant raw /\
    List.length (participants s') = List.length raw /\
    (forall i : nat,
        nth_error (participants s') i
        = option_map formatParticipant (nth_error raw i)) /\
    (forall p : ParticipantData.t,
        Participant.id (formatParticipant p) = ParticipantData.id p /\
        Participant.name (formatParticipant p) = ParticipantData.name p /\
        Participant.isOnline (formatParticipant p) = ParticipantData.isOnline p /\
        Participant.badges (formatParticipant p)
        = map BadgeData.id (ParticipantData.badges p)) /\
    (forall s0 : State,
        participants
          (fetchParticipants (inr {| ok := true; json := inr data |}) s0)
        = participants s') /\
    participants
      (fetchParticipants
         (inr {| ok := true; json := inr {| participants_field := None |} |}) s)
    = [].
Proof.
  intros host s data raw s'. subst s'.
  rewrite fetchParticipants_success. cbn [participants].
  assert (Hraw : participants_or_empty data = raw) by reflexivity.
  rewrite Hraw.
  split; [intros l Hl; unfold raw; rewrite Hl; reflexivity|].
  split; [intros Hn; unfold raw; rewrite Hn; reflexivity|].
  split; [reflexivity|].
  split; [apply length_map|].
  split; [intros i; apply nth_error_map|].
  split; [intros p; repeat split|].
  split; [intros s0; reflexivity|reflexivity].
Qed.

(** C2 on a body that carries two participants. *)
Lemma C2_witness :
  participants
    (@fetchParticipants ascii_host
       (inr {| ok := true;
               json := inr {| participants_field :=
                                Some [sample_raw "Ana" 3 true;
                                      sample_raw "Bob" 0 false] |} |})
       sample_state)
  = map (@formatParticipant ascii_host)
        [sample_raw "Ana" 3 true; sample_raw "Bob" 0 false].
Proof.
  exact (proj1 (C2_view_list_is_map_of_fetch ascii_host sample_state
                  {| participants_field :=
                       Some [sample_raw "Ana" 3 true;
                             sample_raw "Bob" 0 false] |})
               _ eq_refl).
Defined.

(** C3: when the fetch fails (the request is rejected, the status is not
    OK, or the body cannot be parsed) the connectivity status becomes
    false, the error is the message of the thrown [Error] or
    ["Unknown error"] for any other thrown value, and the view list, hence
    what the search shows, is as before. *)
Theorem C3_failed_fetch_keeps_view_list :
  forall (host : JsHost),
    (forall (s : State) (o : FetchOutcome) (err : Thrown),
        fetch_try o = inl err ->
        let s' := fetchParticipants o s in
        connected s' = false /\
        error s' = Some (error_message err) /\
        participants s' = participants s /\
        query s' = query s /\
        filtered s' = filtered s) /\
    (forall (s : State) (data : ResponseData) (o : FetchOutcome)
            (err : Thrown),
        fetch_try o = inl err ->
        participants (poll [inr {| ok := true; json := inr data |}; o] s)
        = map formatParticipant (participants_or_empty data)) /\
    (forall err : Thrown, fetch_try (inl err) = inl err) /\
    (forall r : Response,
        ok r = false ->
        fetch_try (inr r)
        = inl (ErrorObject (js "Failed to fetch participants"))) /\
    (forall (r : Response) (err : Thrown),
        ok r = true -> json r = inl err -> fetch_try (inr r) = inl err) /\
    (forall m : JsString, error_message (ErrorObject m) = m) /\
    error_message NonError = js "Unknown error".
Proof.
  intros host. split.
  { intros s o err H s'. subst s'.
    rewrite (fetchParticipants_failure o err s H). repeat split. }
  split.
  { intros s data o err H. unfold poll; cbn [fold_left].
    rewrite (fetchParticipants_failure o err _ H), fetchParticipants_success.
    reflexivity. }
  split; [reflexivity|].
  split.
  { intros r Hok. apply fetch_try_failure_cases. right; left. eauto. }
  split.
  { intros r err Hok Hj. apply fetch_try_failure_cases. right; right. eauto. }
  split; reflexivity.
Qed.

(** C3 at a response whose status is not OK, after the sample state. *)
Lemma C3_witness :
  let o : FetchOutcome := inr {| ok := false; json := inl NonError |} in
  let err := ErrorObject (js "Failed to fetch participants") in
  @fetch_try ascii_host o = inl err /\
  connected (@fetchParticipants ascii_host o sample_state) = false /\
  error (@fetchParticipants ascii_host o sample_state)
  = Some (js "Failed to fetch participants") /\
  participants (@fetchParticipants ascii_host o sample_state)
  = participants sample_state.
Proof.
  intros o err.
  assert (H : @fetch_try ascii_host o = inl err) by reflexivity.
  split; [exact H|].
  destruct (proj1 (C3_failed_fetch_keeps_view_list ascii_host)
              sample_state o err H) as (Hc & He & Hp & _).
  split; [exact Hc|]. split; [exact He|exact Hp].
Defined.

(** C7: every successful fetch, also one that follows a failure, sets the
    connectivity status to true and clears the error. *)
Theorem C7_success_clears_error :
  forall (host : JsHost) (s : State) (data : ResponseData)
         (previous : FetchOutcome),
    let success : FetchOutcome := inr {| ok := true; json := inr data |} in
    connected (fetchParticipants success s) = true /\
    error (fetchParticipants success s) = None /\
    connected (poll [previous; success] s) = true /\
    error (poll [previous; success] s) = None.
Proof.
  intros host s data previous success. subst success.
  unfold poll; cbn [fold_left].
  rewrite !fetchParticipants_success. repeat split.
Qed.

Example activeCount_sample : activeCount sample_state = 2%nat.
Proof. reflexivity. Qed.

(** C10: the two aggregates are functions of the view list alone: two
    states with the same view list have the same active count and the same
    average, so typing in the search box leaves both as they are, while
    the list that is displayed changes with the query. *)
Theorem C10_aggregates_ignore_query :
  (forall (s : State) (q1 q2 : JsString),
      activeCount (setQuery q1 s) = activeCount (setQuery q2 s) /\
      avg (setQuery q1 s) = avg (setQuery q2 s)) /\
  (forall s1 s2 : State,
      participants s1 = participants s2 ->
      activeCount s1 = activeCount s2 /\ avg s1 = avg s2) /\
  @filtered ascii_host (setQuery (js "ana") sample_state)
  <> @filtered ascii_host (setQuery (js "bob") sample_state).
Proof.
  split; [intros s q1 q2; split; reflexivity|]. split.
  - intros s1 s2 Hp. unfold activeCount, avg. rewrite Hp. split; reflexivity.
  - vm_compute. discriminate.
Qed.

(** C10 for the sample state before and after a failed fetch. *)
Lemma C10_witness :
  participants (@fetchParticipants ascii_host (inl NonError) sample_state)
  = participants sample_state /\
  avg (@fetchParticipants ascii_host (inl NonError) sample_state)
  = avg sample_state.
Proof.
  assert (H : participants
                (@fetchParticipants ascii_host (inl NonError) sample_state)
              = participants sample_state) by reflexivity.
  split; [exact H|].
  exact (proj2 (proj1 (proj2 C10_aggregates_ignore_query) _ _ H)).
Defined.

(** ** Strings: search and badge labels *)

Section StringFacts.
Local Open Scope N_scope.

Lemma isPrefix_spec (t : JsString) :
  forall s, isPrefix t s = true <-> exists post, s = t ++ post.
Proof.
  induction t as [|a t IH]; intros s; simpl.
  - split; [intros _; exists s; reflexivity|reflexivity].
  - destruct s as [|b s].
    + split; [discriminate|]. intros [post H]; discriminate.
    + rewrite andb_true_iff, N.eqb_eq, IH. split.
      * intros [-> [post ->]]. exists post. reflexivity.
      * intros [post H]. inversion H; subst. eauto.
Qed.

Lemma includes_spec (s t : JsString) :
  includes s t = true <-> exists pre post, s = pre ++ t ++ post.
Proof.
  induction s as [|c s IH]; simpl; rewrite orb_true_iff, isPrefix_spec.
  - split.
    + intros [[post H]|H]; [|discriminate]. exists [], post. exact H.
    + intros [pre [post H]]. left.
      destruct pre; [|discriminate]. exists post. exact H.
  - rewrite IH. split.
    + intros [[post H]|[pre [post H]]].
      * exists [], post. exact H.
      * exists (c :: pre), post. rewrite H. reflexivity.
    + intros [[|c' pre] [post H]].
      * left. exists post. exact H.
      * right. inversion H; subst. eauto.
Qed.

Example includes_sample :
  includes (js "banana") (js "nan") = true /\
  includes (js "banana") (js "nab") = false /\
  includes (js "banana") (js "") = true.
Proof. repeat split. Qed.

Lemma split_on_nonempty (sep : code_unit) (s : JsString) :
  split_on sep s <> [].
Proof.
  destruct s as [|c r]; simpl; [discriminate|].
  destruct (c =? sep); [discriminate|].
  destruct (split_on sep r); discriminate.
Qed.

Lemma join_with_cons (sep c : code_unit) (w : JsString) (ws : list JsString) :
  join_with sep ((c :: w) :: ws) = c :: join_with sep (w :: ws).
Proof. destruct ws; reflexivity. Qed.

Lemma join_with_nil_cons (sep : code_unit) (ws : list JsString) :
  ws <> [] -> join_with sep ([] :: ws) = sep :: join_with sep ws.
Proof. destruct ws; [congruence|reflexivity]. Qed.

Lemma word_char_not_hyphen (c : code_unit) :
  is_word_char c = true -> (c =? hyphen) = false.
Proof.
  intros Hw. destruct (N.eqb_spec c hyphen) as [->|]; [|reflexivity].
  discriminate Hw.
Qed.

Lemma replace_hyphens_hyphen (r : JsString) :
  replace_hyphens (hyphen :: r) = space :: replace_hyphens r.
Proof. reflexivity. Qed.

Lemma replace_hyphens_word (c : code_unit) (r : JsString) :
  is_word_char c = true -> replace_hyphens (c :: r) = c :: replace_hyphens r.
Proof.
  intros Hw. unfold replace_hyphens. cbn [map].
  rewrite (word_char_not_hyphen c Hw). reflexivity.
Qed.

Lemma split_on_hyphen (r : JsString) :
  split_on hyphen (hyphen :: r) = [] :: split_on hyphen r.
Proof. reflexivity. Qed.

Lemma split_on_word (c : code_unit) (r : JsString) :
  is_word_char c = true ->
  split_on hyphen (c :: r)
  = match split_on hyphen r with
    | w :: ws => (c :: w) :: ws
    | [] => [[c]]
    end.
Proof.
  intros Hw. cbn [split_on]. rewrite (word_char_not_hyphen c Hw). reflexivity.
Qed.

(** The second [replace], started inside a word ([prev = true]) or at a
    word boundary ([prev = false]), against the words of the slug. *)
Lemma capitalize_split (s : JsString) :
  is_slug s ->
  capitalize_word_starts false (replace_hyphens s)
  = join_with space (map capitalize_first (split_on hyphen s)) /\
  capitalize_word_starts true (replace_hyphens s)
  = join_with space
      match split_on hyphen s with
      | w :: ws => w :: map capitalize_first ws
      | [] => []
      end.
Proof.
  induction 1 as [|c r Hc Hr [IH1 IH2]]; [split; reflexivity|].
  pose proof (split_on_nonempty hyphen r) as Hne.
  destruct Hc as [Hw| ->].
  - (* a word character *)
    rewrite (replace_hyphens_word c r Hw), (split_on_word c r Hw).
    cbn [capitalize_word_starts]. rewrite Hw. cbn [andb negb].
    rewrite IH2.
    destruct (split_on hyphen r) as [|w ws]; [congruence|].
    cbn [map capitalize_first]. rewrite !join_with_cons. split; reflexivity.
  - (* a hyphen *)
    rewrite replace_hyphens_hyphen, split_on_hyphen.
    cbn [capitalize_word_starts].
    change (is_word_char space) with false. cbn [andb].
    rewrite IH1.
    assert (Hm : map capitalize_first (split_on hyphen r) <> []).
    { destruct (split_on hyphen r); [congruence|discriminate]. }
    cbn [map capitalize_first].
    pose proof (join_with_nil_cons space _ Hm) as E.
    split; symmetry; exact E.
Qed.

End StringFacts.

(** C6: the search shows exactly the participants of the view list whose
    lower-cased name contains the lower-cased query, in the order of the
    view list; it is a function of the list and the query alone; the query
    ["ana"] keeps a participant named ["Ana"] and drops one named
    ["Bob"]. *)
Theorem C6_search_is_case_insensitive_substring :
  forall host : JsHost,
    lowers_ascii host ->
    (forall (s : State) (p : Participant.t),
        In p (filtered s) <->
        In p (participants s) /\
        exists pre post,
          toLowerCase (Participant.name p)
          = pre ++ toLowerCase (query s) ++ post) /\
    (forall (s : State) (ps1 ps2 : list Participant.t),
        participants s = ps1 ++ ps2 ->
        filtered s
        = filtered (setParticipants ps1 s) ++ filtered (setParticipants ps2 s)) /\
    (forall s1 s2 : State,
        participants s1 = participants s2 -> query s1 = query s2 ->
        filtered s1 = filtered s2) /\
    (forall (s : State) (ana bob : Participant.t),
        Participant.name ana = js "Ana" ->
        Participant.name bob = js "Bob" ->
        participants s = [ana; bob] ->
        query s = js "ana" ->
        filtered s = [ana]).
Proof.
  intros host Hlow. split; [|split; [|split]].
  - intros s p. unfold filtered. rewrite filter_In.
    unfold matches_query. rewrite includes_spec. reflexivity.
  - intros s ps1 ps2 Hs. unfold filtered. cbn [participants query].
    rewrite Hs. apply filter_app.
  - intros s1 s2 Hp Hq. unfold filtered. rewrite Hp, Hq. reflexivity.
  - intros s ana bob Ha Hb Hs Hq. unfold filtered, matches_query.
    rewrite Hs, Hq. cbn [filter]. rewrite Ha, Hb.
    rewrite !Hlow by (repeat constructor).
    reflexivity.
Qed.

(** C6 at the sample state and the query ["ana"], on the ASCII host. *)
Lemma C6_witness :
  lowers_ascii ascii_host /\
  @filtered ascii_host (setQuery (js "ana") sample_state)
  = [sample_view "Ana" 0 true].
Proof.
  assert (H : lowers_ascii ascii_host) by (intros s _; reflexivity).
  split; [exact H|].
  destruct (C6_search_is_case_insensitive_substring ascii_host H)
    as (Hin & _ & Hpure & _).
  apply (Hpure _ (setQuery (js "ana") sample_state)); reflexivity.
Defined.

(** C8: for a hyphenated slug the badge label is the slug with every
    hyphen replaced by a space and the first letter of each word in upper
    case; the formatter is a total function on strings. *)
Theorem C8_badge_label :
  (forall s : JsString, is_slug s -> formatBadgeLabel s = label_spec s) /\
  formatBadgeLabel (js "module-master") = js "Module Master" /\
  formatBadgeLabel (js "chamber-10") = js "Chamber 10".
Proof.
  split; [|split; reflexivity].
  intros s Hs. unfold formatBadgeLabel, label_spec.
  exact (proj1 (capitalize_split s Hs)).
Qed.

(** C8 at the slug ["di-ninja"]. *)
Lemma C8_witness :
  is_slug (js "di-ninja") /\
  formatBadgeLabel (js "di-ninja") = label_spec (js "di-ninja").
Proof.
  assert (H : is_slug (js "di-ninja")).
  { repeat constructor; (left; reflexivity) || (right; reflexivity). }
  split; [exact H|]. exact (proj1 C8_badge_label _ H).
Defined.

(** ** The commit script *)

Import CommitAll.

Section ScriptFacts.
Variable env : Env.
Variable msg : string.

Lemma commit_in_dir_out (dir : path) (sh : Shell) :
  out (commit_in_dir env msg dir sh) = out sh ++ events_of env msg dir.
Proof.
  unfold commit_in_dir, events_of, emit, cd; cbn [cwd out].
  destruct (is_dir env dir); [destruct (diff_cached_quiet env dir)|];
    cbn [out]; rewrite <- ?app_assoc; reflexivity.
Qed.

Lemma commit_in_dir_cwd (dir : path) (sh : Shell) :
  cwd (commit_in_dir env msg dir sh)
  = if is_dir env dir then dir else cwd sh.
Proof.
  unfold commit_in_dir, emit, cd; cbn [cwd out].
  destruct (is_dir env dir); [destruct (diff_cached_quiet env dir)|];
    reflexivity.
Qed.

Lemma commit_subrepos_out (MAIN_DIR : path) (subs : list string) :
  forall sh,
    out (commit_subrepos env msg MAIN_DIR subs sh)
    = out sh ++ flat_map (events_of env msg)
                         (visited env MAIN_DIR (cwd sh) subs).
Proof.
  unfold commit_subrepos.
  induction subs as [|sub rest IH]; intros sh; cbn [fold_left visited].
  - cbn [flat_map]. rewrite app_nil_r. reflexivity.
  - rewrite IH. unfold loop_body.
    destruct (is_dir env (cwd sh ++ [sub; ".git"%string])).
    + rewrite commit_in_dir_out, commit_in_dir_cwd.
      cbn [flat_map]. rewrite <- !app_assoc. reflexivity.
    + reflexivity.
Qed.

Lemma trace_eq (start : path) :
  msg <> EmptyString ->
  trace env msg start
  = flat_map (events_of env msg)
             (visited env start start subrepos ++ [start])
    ++ [Echo AllProcessed].
Proof.
  intros Hmsg. unfold trace, main. cbn [nth].
  destruct msg as [|c m] eqn:Em; [congruence|]. rewrite <- Em.
  cbn [snd emit out]. rewrite commit_in_dir_out.
  assert (Hout : forall sh : Shell,
             out (if is_dir env start then cd start sh else sh) = out sh).
  { intros sh. destruct (is_dir env start); reflexivity. }
  rewrite Hout, commit_subrepos_out. cbn [out cwd app].
  rewrite flat_map_app. cbn [flat_map]. rewrite app_nil_r. reflexivity.
Qed.

Ltac split_in H :=
  repeat (destruct H as [H|H]; [try discriminate H|]); try contradiction.

Lemma in_events_of_add (x d : path) :
  In (GitAddAll d) (events_of env msg x) <-> x = d /\ is_dir env d = true.
Proof.
  unfold events_of.
  destruct (is_dir env x) eqn:Ed; destruct (diff_cached_quiet env x) eqn:Eq;
    cbn [In]; split; intros H;
    try (destruct H as [-> H]; congruence);
    try (split_in H; inversion H; subst; auto; fail).
  all: destruct H as [<- _]; auto.
Qed.

Lemma in_events_of_commit (x d : path) (m : string) :
  In (GitCommit d m) (events_of env msg x) <->
  x = d /\ is_dir env d = true /\ diff_cached_quiet env d = false /\ m = msg.
Proof.
  unfold events_of.
  destruct (is_dir env x) eqn:Ed; destruct (diff_cached_quiet env x) eqn:Eq;
    cbn [In]; split; intros H;
    try (destruct H as (-> & H1 & H2 & ->); congruence);
    try (split_in H; inversion H; subst; auto; fail).
  all: destruct H as (<- & _ & _ & ->); auto 6.
Qed.

Lemma in_events_of_no_changes (x d : path) :
  In (Echo (NoChanges d)) (events_of env msg x) <->
  x = d /\ is_dir env d = true /\ diff_cached_quiet env d = true.
Proof.
  unfold events_of.
  destruct (is_dir env x) eqn:Ed; destruct (diff_cached_quiet env x) eqn:Eq;
    cbn [In]; split; intros H;
    try (destruct H as (-> & H1 & H2); congruence);
    try (split_in H; inversion H; subst; auto; fail).
  all: destruct H as (<- & _ & _); auto 6.
Qed.

Lemma in_events_add (ds : list path) (d : path) :
  In (GitAddAll d) (flat_map (events_of env msg) ds) <->
  In d ds /\ is_dir env d = true.
Proof.
  rewrite in_flat_map. split.
  - intros [x [Hx Hin]]. apply in_events_of_add in Hin.
    destruct Hin as [-> Hd]. auto.
  - intros [Hin Hd]. exists d. split; [exact Hin|].
    apply in_events_of_add. auto.
Qed.

Lemma in_events_commit (ds : list path) (d : path) (m : string) :
  In (GitCommit d m) (flat_map (events_of env msg) ds) <->
  In d ds /\ is_dir env d = true /\ diff_cached_quiet env d = false /\ m = msg.
Proof.
  rewrite in_flat_map. split.
  - intros [x [Hx Hin]]. apply in_events_of_commit in Hin.
    destruct Hin as (-> & Hd & Hq & ->). auto.
  - intros (Hin & Hd & Hq & ->). exists d. split; [exact Hin|].
    apply in_events_of_commit. auto.
Qed.

Lemma in_events_no_changes (ds : list path) (d : path) :
  In (Echo (NoChanges d)) (flat_map (events_of env msg) ds) <->
  In d ds /\ is_dir env d = true /\ diff_cached_quiet env d = true.
Proof.
  rewrite in_flat_map. split.
  - intros [x [Hx Hin]]. apply in_events_of_no_changes in Hin.
    destruct Hin as (-> & Hd & Hq). auto.
  - intros (Hin & Hd & Hq). exists d. split; [exact Hin|].
    apply in_events_of_no_changes. auto.
Qed.

End ScriptFacts.

Section TraceFacts.
Variable env : Env.
Variable msg : string.

Lemma visited_in (MAIN_DIR : path) (subs : list string) :
  forall cwd0 d,
    In d (visited env MAIN_DIR cwd0 subs) ->
    exists sub, In sub subs /\ d = MAIN_DIR ++ [sub].
Proof.
  induction subs as [|sub rest IH]; intros cwd0 d; cbn [visited].
  - intros [].
  - destruct (is_dir env (cwd0 ++ [sub; ".git"%string])).
    + intros [<-|Hin].
      * exists sub. split; [left|]; reflexivity.
      * destruct (IH _ _ Hin) as [sub' [Hs ->]]. exists sub'. split; [right|]; auto.
    + intros Hin. destruct (IH _ _ Hin) as [sub' [Hs ->]].
      exists sub'. split; [right|]; auto.
Qed.

Lemma visited_cons (MAIN_DIR cwd0 : path) (sub : string) (rest : list string) :
  visited env MAIN_DIR cwd0 (sub :: rest)
  = if is_dir env (cwd0 ++ [sub; ".git"%string]) then
      (MAIN_DIR ++ [sub]) ::
      visited env MAIN_DIR
        (if is_dir env (MAIN_DIR ++ [sub]) then MAIN_DIR ++ [sub] else cwd0)
        rest
    else visited env MAIN_DIR cwd0 rest.
Proof. reflexivity. Qed.

Lemma subdir_neq (start : path) (sub : string) : start ++ [sub] <> start.
Proof.
  intros H. apply (f_equal (@List.length string)) in H.
  rewrite length_app in H. simpl in H. lia.
Qed.

Lemma in_before_last (e : Event) (l : list Event) :
  e <> Echo AllProcessed -> (In e (l ++ [Echo AllProcessed]) <-> In e l).
Proof.
  intros Hne. rewrite in_app_iff. simpl. split; [|auto].
  intros [H|[H|[]]]; [exact H|congruence].
Qed.

End TraceFacts.

(** C4 as the specification words it fails in the containing directory:
    the script stages and commits there without looking for a metadata
    directory. *)
Lemma C4_counterexample :
  ~ gated_by_metadata bare_env "wip" ["work"%string] ["work"%string].
Proof.
  intros H.
  assert (Hd : is_dir bare_env (["work"%string] ++ [".git"%string]) = true).
  { apply H. left. vm_compute. auto. }
  discriminate Hd.
Qed.

(** A run in a checkout whose first two subrepos have metadata. *)
Example trace_two_subrepos :
  trace two_subrepos_env "wip" ["work"%string]
  = [Echo (Processing ["work"; "instructor-service"]%string);
     GitAddAll ["work"; "instructor-service"]%string;
     GitDiffCached ["work"; "instructor-service"]%string;
     GitCommit ["work"; "instructor-service"]%string "wip";
     Echo (Committed ["work"; "instructor-service"]%string);
     Echo (Processing ["work"%string]);
     GitAddAll ["work"%string];
     GitDiffCached ["work"%string];
     GitCommit ["work"%string] "wip";
     Echo (Committed ["work"%string]);
     Echo AllProcessed].
Proof. reflexivity. Qed.

(** The directory test of the loop is relative to the shell's current
    directory, which [commit_in_dir] has changed: once a subrepo has been
    entered, a later one is looked for inside it and passed over. *)
Lemma later_subrepo_passed_over :
  is_dir two_subrepos_env ["work"; "instructor-ui"; ".git"]%string = true /\
  In (GitAddAll ["work"; "instructor-service"]%string)
     (trace two_subrepos_env "wip" ["work"%string]) /\
  ~ In (GitAddAll ["work"; "instructor-ui"]%string)
       (trace two_subrepos_env "wip" ["work"%string]).
Proof.
  split; [reflexivity|]. split.
  - vm_compute. auto 8.
  - vm_compute. intros H.
    repeat (destruct H as [H|H]; [discriminate H|]). exact H.
Qed.

(** C4, amended: the containing directory is always handled, with no
    metadata test; a named subdirectory that is tested from the starting
    directory (none before it had metadata) is staged exactly when its
    metadata directory is present; wherever the script stages, it commits
    with the supplied message unless nothing is staged, in which case it
    prints the notice and does not commit. *)
Theorem C4_commit_all_gating :
  forall (env : Env) (msg : string) (start : path),
    msg <> EmptyString ->
    let t := trace env msg start in
    (is_dir env start = true -> In (GitAddAll start) t) /\
    (forall (i : nat) (sub : string),
        nth_error subrepos i = Some sub ->
        (forall (j : nat) (sub' : string),
            (j < i)%nat -> nth_error subrepos j = Some sub' ->
            is_dir env (start ++ [sub'; ".git"%string]) = false) ->
        (In (GitAddAll (start ++ [sub])) t <->
         is_dir env (start ++ [sub; ".git"%string]) = true /\
         is_dir env (start ++ [sub]) = true)) /\
    (forall d : path,
        In (GitAddAll d) t ->
        if diff_cached_quiet env d
        then In (Echo (NoChanges d)) t /\ forall m, ~ In (GitCommit d m) t
        else In (GitCommit d msg) t) /\
    (forall (d : path) (m : string),
        In (GitCommit d m) t ->
        m = msg /\ In (GitAddAll d) t /\ diff_cached_quiet env d = false).
Proof.
  intros env msg start Hmsg t. subst t. rewrite (trace_eq env msg start Hmsg).
  set (ds := visited env start start subrepos ++ [start]).
  assert (Hadd : forall d, In (GitAddAll d)
                   (flat_map (events_of env msg) ds ++ [Echo AllProcessed])
                 <-> In d ds /\ is_dir env d = true).
  { intros d. rewrite in_before_last by discriminate. apply in_events_add. }
  assert (Hcommit : forall d m, In (GitCommit d m)
                      (flat_map (events_of env msg) ds ++ [Echo AllProcessed])
                    <-> In d ds /\ is_dir env d = true /\
                        diff_cached_quiet env d = false /\ m = msg).
  { intros d m. rewrite in_before_last by discriminate. apply in_events_commit. }
  assert (Hnote : forall d, In (Echo (NoChanges d))
                    (flat_map (events_of env msg) ds ++ [Echo AllProcessed])
                  <-> In d ds /\ is_dir env d = true /\
                      diff_cached_quiet env d = true).
  { intros d. rewrite in_before_last by discriminate.
    apply in_events_no_changes. }
  split; [|split; [|split]].
  - intros Hd. apply Hadd. split; [|exact Hd].
    unfold ds. apply in_or_app. right. left. reflexivity.
  - intros i sub Hnth Hearlier. rewrite Hadd.
    assert (Hin : In (start ++ [sub]) ds <->
                  is_dir env (start ++ [sub; ".git"%string]) = true).
    { unfold ds. rewrite in_app_iff. cbn [In].
      assert (Hvis : In (start ++ [sub]) (visited env start start subrepos) <->
                     is_dir env (start ++ [sub; ".git"%string]) = true).
      { destruct i as [|[|[|i]]]; cbn in Hnth;
          [injection Hnth as <- | injection Hnth as <-
          | injection Hnth as <- | destruct i; discriminate Hnth].
        - unfold subrepos. rewrite visited_cons.
          destruct (is_dir env (start ++ ["instructor-service"; ".git"]%string));
            split; auto; try (intros _; left; reflexivity);
            try (intros Hf; discriminate Hf).
          intros Hin. apply visited_in in Hin.
          destruct Hin as [s [Hs Heq]]. apply app_inv_head in Heq.
          inversion Heq; subst s.
          destruct Hs as [Hs|[Hs|[]]]; discriminate Hs.
        - pose proof (Hearlier 0%nat _ ltac:(lia) eq_refl) as H0.
          unfold subrepos. rewrite visited_cons, H0, visited_cons.
          destruct (is_dir env (start ++ ["instructor-ui"; ".git"]%string));
            split; auto; try (intros _; left; reflexivity);
            try (intros Hf; discriminate Hf).
          intros Hin. apply visited_in in Hin.
          destruct Hin as [s [Hs Heq]]. apply app_inv_head in Heq.
          inversion Heq; subst s.
          destruct Hs as [Hs|[]]; discriminate Hs.
        - pose proof (Hearlier 0%nat _ ltac:(lia) eq_refl) as H0.
          pose proof (Hearlier 1%nat _ ltac:(lia) eq_refl) as H1.
          unfold subrepos.
          rewrite visited_cons, H0, visited_cons, H1, visited_cons.
          cbn [visited].
          destruct (is_dir env (start ++ ["participant-service"; ".git"]%string));
            split; auto; try (intros _; left; reflexivity);
            try (intros Hf; discriminate Hf).
          all: intros []. }
      rewrite Hvis. split; [|auto].
      intros [H|[H|[]]]; [exact H|].
      exfalso. exact (subdir_neq start sub (eq_sym H)). }
    rewrite Hin. reflexivity.
  - intros d Hd. apply Hadd in Hd. destruct Hd as [Hin Hdir].
    destruct (diff_cached_quiet env d) eqn:Eq.
    + split; [apply Hnote; auto|].
      intros m Hc. apply Hcommit in Hc. destruct Hc as (_ & _ & Hq & _).
      congruence.
    + apply Hcommit. auto.
  - intros d m Hc. apply Hcommit in Hc. destruct Hc as (Hin & Hdir & Hq & ->).
    split; [reflexivity|]. split; [apply Hadd; auto|exact Hq].
Qed.

(** C4 in the checkout with two subrepos. *)
Lemma C4_witness :
  "wip"%string <> EmptyString /\
  In (GitAddAll ["work"%string]) (trace two_subrepos_env "wip" ["work"%string]) /\
  In (GitCommit ["work"%string] "wip")
     (trace two_subrepos_env "wip" ["work"%string]).
Proof.
  assert (H : "wip"%string <> EmptyString) by discriminate.
  split; [exact H|].
  destruct (C4_commit_all_gating two_subrepos_env "wip" ["work"%string] H)
    as (Hmain & _ & Hstaged & _).
  assert (Ha : In (GitAddAll ["work"%string])
                  (trace two_subrepos_env "wip" ["work"%string]))
    by (apply Hmain; reflexivity).
  split; [exact Ha|]. exact (Hstaged _ Ha).
Defined.

(** C9: without a commit message the script prints its usage line and
    exits with status 1; it issues no [git] command at all.  An empty first
    argument is treated the same way. *)
Theorem C9_usage_without_message :
  forall (env : Env) (start : path),
    main env [] start = (1%Z, [Echo Usage]) /\
    fst (main env [] start) <> 0%Z /\
    (forall e : Event, In e (snd (main env [] start)) <-> e = Echo Usage) /\
    (forall rest : list string,
        main env (EmptyString :: rest) start = (1%Z, [Echo Usage])).
Proof.
  intros env start. split; [reflexivity|]. split; [discriminate|].
  split; [|reflexivity].
  intros e. cbn. split; [intros [H|[]]; auto|auto].
Qed.

(* ================================================================== *)
(** * Part III: further properties of the code *)
(* ================================================================== *)

(** ** The polling loop *)

Import Bounds.

Section PollFacts.
Context {host : JsHost}.

Lemma poll_app (os1 os2 : list FetchOutcome) (s : State) :
  poll (os1 ++ os2) s = poll os2 (poll os1 s).
Proof. unfold poll. apply fold_left_app. Qed.

Lemma succeeds_true (o : FetchOutcome) :
  succeeds o = true ->
  exists data, o = inr {| ok := true; json := inr data |}.
Proof.
  destruct o as [e|[[|] [e|data]]]; simpl; try discriminate.
  intros _. exists data. reflexivity.
Qed.

Lemma succeeds_false (o : FetchOutcome) :
  succeeds o = false -> exists err, fetch_try o = inl err.
Proof.
  destruct o as [e|[[|] [e|data]]]; simpl; try discriminate; intros _;
    eexists; reflexivity.
Qed.

Lemma last_success_cons (o : FetchOutcome) (rest : list FetchOutcome) :
  last_success (o :: rest)
  = match last_success rest with
    | Some data => Some data
    | None => if succeeds o
              then match o with
                   | inr r => match json r with
                              | inr data => Some data
                              | inl _ => None
                              end
                   | inl _ => None
                   end
              else None
    end.
Proof.
  cbn [last_success]. destruct (last_success rest); [reflexivity|].
  destruct o as [e|[[|] [e|data]]]; reflexivity.
Qed.

Lemma poll_participants (os : list FetchOutcome) :
  forall s,
    participants (poll os s)
    = match last_success os with
      | Some data => map formatParticipant (participants_or_empty data)
      | None => participants s
      end.
Proof.
  induction os as [|o rest IH]; intros s; [reflexivity|].
  change (poll (o :: rest) s) with (poll rest (fetchParticipants o s)).
  rewrite IH, last_success_cons.
  destruct (last_success rest); [reflexivity|].
  destruct (succeeds o) eqn:Es.
  - destruct (succeeds_true o Es) as [data ->]. reflexivity.
  - destruct (succeeds_false o Es) as [err He].
    rewrite (fetchParticipants_failure o err s He). reflexivity.
Qed.

Lemma poll_query (os : list FetchOutcome) :
  forall s, query (poll os s) = query s.
Proof.
  induction os as [|o rest IH]; intros s; [reflexivity|].
  change (poll (o :: rest) s) with (poll rest (fetchParticipants o s)).
  rewrite IH. unfold fetchParticipants. destruct (fetch_try o); reflexivity.
Qed.

Lemma fetch_connected (o : FetchOutcome) (s : State) :
  connected (fetchParticipants o s) = succeeds o /\
  (error (fetchParticipants o s) = None <-> succeeds o = true).
Proof.
  destruct (succeeds o) eqn:Es.
  - destruct (succeeds_true o Es) as [data ->].
    split; [reflexivity|]. split; reflexivity.
  - destruct (succeeds_false o Es) as [err He].
    rewrite (fetchParticipants_failure o err s He). cbn.
    split; [reflexivity|]. split; discriminate.
Qed.

Lemma last_success_bounded (os : list FetchOutcome) (data : ResponseData) :
  Forall outcome_bounded os -> last_success os = Some data ->
  body_bounded data.
Proof.
  induction 1 as [|o rest Ho _ IH]; [discriminate|].
  cbn [last_success]. destruct (last_success rest) as [d|].
  - intros E. injection E as <-. apply IH. reflexivity.
  - destruct o as [e|[[|] [e|d]]]; try discriminate.
    intros E. injection E as <-. exact Ho.
Qed.

End PollFacts.

(** X1: after any run of the polling loop the view list is the image of
    the body of the most recent successful fetch (the list before the run
    when no fetch succeeded), the connectivity status tells whether the
    last fetch succeeded, the error is cleared exactly then, and the
    search query is never touched. *)
Theorem poll_reflects_last_outcomes :
  forall (host : JsHost) (os : list FetchOutcome) (o : FetchOutcome)
         (s : State),
    participants (poll os s)
    = match last_success os with
      | Some data => map formatParticipant (participants_or_empty data)
      | None => participants s
      end /\
    query (poll os s) = query s /\
    connected (poll (os ++ [o]) s) = succeeds o /\
    (error (poll (os ++ [o]) s) = None <-> succeeds o = true).
Proof.
  intros host os o s.
  split; [apply poll_participants|]. split; [apply poll_query|].
  rewrite poll_app. change (poll [o] (poll os s))
    with (fetchParticipants o (poll os s)).
  apply fetch_connected.
Qed.

(** X2: fetching is idempotent, and a successful fetch wipes out whatever
    the fetches before it did: the state afterwards is the one it would
    have produced on its own. *)
Theorem success_overrides_history :
  forall (host : JsHost) (os : list FetchOutcome) (o : FetchOutcome)
         (data : ResponseData) (s : State),
    fetchParticipants o (fetchParticipants o s) = fetchParticipants o s /\
    poll (os ++ [inr {| ok := true; json := inr data |}]) s
    = fetchParticipants (inr {| ok := true; json := inr data |}) s.
Proof.
  intros host os o data s. split.
  - unfold fetchParticipants. destruct (fetch_try o); reflexivity.
  - rewrite poll_app.
    change (poll [inr {| ok := true; json := inr data |}] (poll os s))
      with (fetchParticipants (inr {| ok := true; json := inr data |})
                              (poll os s)).
    rewrite !fetchParticipants_success, poll_query. reflexivity.
Qed.

(** X3: whatever the polling loop has received since the component was
    mounted, every participant on display has a progress value of five
    times the number of badges shown for it. *)
Theorem progress_matches_badges :
  forall (host : JsHost) (os : list FetchOutcome),
    Forall outcome_bounded os ->
    forall p : Participant.t,
      In p (participants (poll os initial)) ->
      Participant.progress p
      = of_Z (5 * Z.of_nat (List.length (Participant.badges p))).
Proof.
  intros host os Hb p Hin. rewrite poll_participants in Hin.
  destruct (last_success os) as [data|] eqn:El; [|destruct Hin].
  pose proof (last_success_bounded os data Hb El) as Hd.
  apply in_map_iff in Hin. destruct Hin as [r [<- Hr]].
  unfold body_bounded in Hd. fold (participants_or_empty data) in Hd.
  rewrite Forall_forall in Hd.
  rewrite (progress_of_badge_count r (Hd r Hr)).
  cbn [formatParticipant Participant.badges]. rewrite length_map. reflexivity.
Qed.

(** X3 after a rejected request followed by a body with one participant. *)
Lemma progress_matches_badges_witness :
  let os : list FetchOutcome :=
    [inl NonError;
     inr {| ok := true;
            json := inr {| participants_field :=
                             Some [sample_raw "Ana" 3 true] |} |}] in
  Forall outcome_bounded os /\
  Participant.progress (@formatParticipant ascii_host (sample_raw "Ana" 3 true))
  = of_Z 15.
Proof.
  intros os.
  assert (H : Forall outcome_bounded os).
  { repeat constructor. }
  split; [exact H|].
  apply (progress_matches_badges ascii_host os H). left. reflexivity.
Defined.

(** ** The aggregates *)


Section AggregateBounds.
Local Open Scope Z_scope.

Lemma Zsum_perm (ks ks' : list Z) : Permutation ks ks' -> Zsum ks = Zsum ks'.
Proof.
  induction 1 as [|k l l' _ IH|a b l|l1 l2 l3 _ IH1 _ IH2]; simpl; lia.
Qed.

Lemma mean_rounded_perm (ks ks' : list Z) :
  Permutation ks ks' -> mean_rounded ks = mean_rounded ks'.
Proof.
  intros Hp. destruct ks as [|k ks].
  - apply Permutation_nil in Hp. subst. reflexivity.
  - destruct ks' as [|k' ks'].
    + apply Permutation_sym, Permutation_nil in Hp. discriminate.
    + rewrite !mean_rounded_div by discriminate.
      rewrite (Zsum_perm _ _ Hp), (Permutation_length Hp). reflexivity.
Qed.

Lemma Zsum_bounds (ks : list Z) (lo hi : Z) :
  Forall (fun k => lo <= k <= hi) ks ->
  Z.of_nat (List.length ks) * lo <= Zsum ks
  <= Z.of_nat (List.length ks) * hi.
Proof.
  induction 1 as [|k ks Hk _ IH]; [simpl; lia|].
  cbn [Zsum fold_right List.length]. fold (Zsum ks).
  rewrite Nat2Z.inj_succ. lia.
Qed.

Lemma round_half_up_div_bounds (S N lo hi : Z) :
  0 < N -> N * lo <= S <= N * hi ->
  lo <= round_half_up_div S N <= hi.
Proof.
  intros HN HS. unfold round_half_up_div. split.
  - apply Z.div_le_lower_bound; lia.
  - assert ((2 * S + N) / (2 * N) < hi + 1); [|lia].
    apply Z.div_lt_upper_bound; lia.
Qed.

End AggregateBounds.

(** X4: the average does not depend on the order in which the
    participants arrive, although it is a sum of floating-point numbers. *)
Theorem avg_order_independent :
  forall (s1 s2 : State) (ks : list Z),
    integral_progress (participants s1) ks ->
    (Zsum ks < 2 ^ 51)%Z ->
    (Z.of_nat (List.length (participants s1)) < 2 ^ 32)%Z ->
    Permutation (participants s1) (participants s2) ->
    avg s1 = avg s2.
Proof.
  intros s1 s2 ks Hint Hsum Hlen Hperm.
  destruct (Permutation_Forall2 Hperm Hint) as [ks' [Hk Hint']].
  rewrite (avg_of_integral_progress s1 ks Hint Hsum Hlen).
  rewrite (avg_of_integral_progress s2 ks' Hint').
  - f_equal. apply mean_rounded_perm. exact Hk.
  - rewrite <- (Zsum_perm _ _ Hk). exact Hsum.
  - rewrite <- (Permutation_length Hperm). exact Hlen.
Qed.

Lemma avg_order_independent_witness :
  let s2 := setParticipants (rev (participants sample_state)) sample_state in
  integral_progress (participants sample_state) [0; 50; 100]%Z /\
  avg sample_state = avg s2.
Proof.
  intros s2.
  assert (H : integral_progress (participants sample_state) [0; 50; 100]%Z).
  { repeat constructor; simpl; lia. }
  split; [exact H|].
  apply (avg_order_independent sample_state s2 _ H); try reflexivity.
  apply Permutation_rev.
Defined.

(** X5: the average lies between the smallest and the largest progress
    value of the view list; when all participants have the same progress,
    that is the average. *)
Theorem avg_between_extremes :
  forall (s : State) (ks : list Z) (lo hi : Z),
    integral_progress (participants s) ks ->
    (Zsum ks < 2 ^ 51)%Z ->
    (Z.of_nat (List.length (participants s)) < 2 ^ 32)%Z ->
    participants s <> [] ->
    Forall (fun k => (lo <= k <= hi)%Z) ks ->
    exists m : Z, avg s = of_Z m /\ (lo <= m <= hi)%Z.
Proof.
  intros s ks lo hi Hint Hsum Hlen Hne Hr.
  exists (mean_rounded ks).
  split; [apply avg_of_integral_progress; assumption|].
  assert (Hks : ks <> []).
  { intros ->. inversion Hint as [E1|]. congruence. }
  rewrite mean_rounded_div by exact Hks.
  apply round_half_up_div_bounds.
  - destruct ks; [congruence|simpl List.length; lia].
  - apply Zsum_bounds. exact Hr.
Qed.

Lemma avg_between_extremes_witness :
  integral_progress (participants sample_state) [0; 50; 100]%Z /\
  exists m : Z, avg sample_state = of_Z m /\ (0 <= m <= 100)%Z.
Proof.
  assert (H : integral_progress (participants sample_state) [0; 50; 100]%Z).
  { repeat constructor; simpl; lia. }
  split; [exact H|].
  apply (avg_between_extremes sample_state _ 0 100 H);
    try reflexivity; try discriminate.
  repeat constructor; simpl; lia.
Defined.

Section ActiveCountFacts.

Lemma filter_length_all {A : Type} (f : A -> bool) (l : list A) :
  List.length (filter f l) = List.length l <-> forall x, In x l -> f x = true.
Proof.
  induction l as [|a l IH]; simpl.
  - split; [intros _ x []|reflexivity].
  - pose proof (filter_length_le f l) as Hle.
    destruct (f a) eqn:Ea; simpl.
    + split.
      * intros H x [<-|Hx]; [exact Ea|]. apply IH; [lia|exact Hx].
      * intros H. f_equal. apply IH. intros x Hx. apply H. right. exact Hx.
    + split; [lia|]. intros H. rewrite (H a (or_introl eq_refl)) in Ea.
      discriminate.
Qed.

End ActiveCountFacts.

(** X6: the active count is the number of online participants of the view
    list: never more than the list holds, all of them exactly when
    everybody is online, and right after a successful fetch the number of
    raw participants whose [isOnline] flag is set. *)
Theorem activeCount_counts_online :
  forall (host : JsHost) (s : State) (data : ResponseData),
    (activeCount s <= List.length (participants s))%nat /\
    (activeCount s = List.length (participants s) <->
     forall p, In p (participants s) -> Participant.isOnline p = true) /\
    activeCount (fetchParticipants (inr {| ok := true; json := inr data |}) s)
    = List.length (filter ParticipantData.isOnline (participants_or_empty data)).
Proof.
  intros host s data. unfold activeCount.
  split; [apply filter_length_le|]. split; [apply filter_length_all|].
  rewrite fetchParticipants_success. cbn [participants].
  induction (participants_or_empty data) as [|r raw IH]; [reflexivity|].
  cbn [map filter formatParticipant Participant.isOnline].
  destruct (ParticipantData.isOnline r); cbn [List.length]; rewrite IH;
    reflexivity.
Qed.

(** ** Search *)

Section SearchFacts.
Context {host : JsHost}.

Lemma includes_nil (s : JsString) : includes s [] = true.
Proof. destruct s; reflexivity. Qed.

Lemma includes_trans (a b c : JsString) :
  includes a b = true -> includes b c = true -> includes a c = true.
Proof.
  rewrite !includes_spec. intros [p1 [q1 ->]] [p2 [q2 ->]].
  exists (p1 ++ p2), (q2 ++ q1). rewrite <- !app_assoc. reflexivity.
Qed.

Lemma includes_length (s t : JsString) :
  includes s t = true -> (List.length t <= List.length s)%nat.
Proof.
  rewrite includes_spec. intros [p [q ->]]. rewrite !length_app. lia.
Qed.

Lemma filter_all {A : Type} (f : A -> bool) (l : list A) :
  (forall x, In x l -> f x = true) -> filter f l = l.
Proof.
  induction l as [|a l IH]; intros H; [reflexivity|]. simpl.
  rewrite (H a (or_introl eq_refl)). f_equal. apply IH.
  intros x Hx. apply H. right. exact Hx.
Qed.

Lemma filter_filter_implied {A : Type} (f g : A -> bool) (l : list A) :
  (forall x, f x = true -> g x = true) ->
  filter f (filter g l) = filter f l.
Proof.
  intros Himp. induction l as [|a l IH]; [reflexivity|]. simpl.
  destruct (g a) eqn:Eg; simpl.
  - destruct (f a); [f_equal|]; exact IH.
  - destruct (f a) eqn:Ef; [|exact IH].
    rewrite (Himp a Ef) in Eg. discriminate.
Qed.

End SearchFacts.

Lemma filtered_of_empty_query (host : JsHost) (s : State) :
  lowers_ascii host -> query s = [] -> filtered s = participants s.
Proof.
  intros Hlow Hq.
  assert (E : toLowerCase (query s) = []).
  { rewrite Hq. exact (Hlow [] (Forall_nil _)). }
  unfold filtered, matches_query. rewrite E.
  apply filter_all. intros p _. apply includes_nil.
Qed.

(** X7: with an empty search box, as when the component is mounted, every
    participant of the view list is displayed, whatever the polling loop
    has received. *)
Theorem empty_query_shows_everyone :
  forall (host : JsHost) (s : State),
    lowers_ascii host ->
    query s = [] ->
    filtered s = participants s /\
    (forall os : list FetchOutcome,
        filtered (poll os s) = participants (poll os s)).
Proof.
  intros host s Hlow Hq. split.
  - exact (filtered_of_empty_query host s Hlow Hq).
  - intros os. apply filtered_of_empty_query; [exact Hlow|].
    rewrite poll_query. exact Hq.
Qed.

Lemma empty_query_shows_everyone_witness :
  lowers_ascii ascii_host /\
  @filtered ascii_host sample_state = participants sample_state.
Proof.
  assert (H : lowers_ascii ascii_host) by (intros s _; reflexivity).
  split; [exact H|].
  exact (proj1 (empty_query_shows_everyone ascii_host sample_state H eq_refl)).
Defined.

(** X8: typing on narrows the display: when the lower-cased old query
    occurs in the lower-cased new one, the new result is the new search
    run over the old result, so nobody who was filtered out comes back;
    and a query longer than a name never matches it. *)
Theorem longer_query_narrows :
  forall (host : JsHost) (s : State) (q' : JsString),
    includes (toLowerCase q') (toLowerCase (query s)) = true ->
    filtered (setQuery q' s) = filter (matches_query q') (filtered s) /\
    incl (filtered (setQuery q' s)) (filtered s) /\
    (forall p : Participant.t,
        In p (filtered (setQuery q' s)) ->
        (List.length (toLowerCase q')
         <= List.length (toLowerCase (Participant.name p)))%nat).
Proof.
  intros host s q' Hq.
  assert (E : filtered (setQuery q' s) = filter (matches_query q') (filtered s)).
  { unfold filtered. cbn [query participants setQuery].
    symmetry. apply filter_filter_implied.
    intros p Hp. unfold matches_query in *.
    exact (includes_trans _ _ _ Hp Hq). }
  split; [exact E|]. split.
  - rewrite E. intros p Hp. apply filter_In in Hp. tauto.
  - intros p Hp. unfold filtered in Hp. apply filter_In in Hp.
    destruct Hp as [_ Hm]. cbn [query setQuery] in Hm.
    apply includes_length. exact Hm.
Qed.

Lemma longer_query_narrows_witness :
  let s := setQuery (js "an") sample_state in
  @includes (@toLowerCase ascii_host (js "ana"))
            (@toLowerCase ascii_host (query s)) = true /\
  @filtered ascii_host (setQuery (js "ana") s)
  = filter (@matches_query ascii_host (js "ana")) (@filtered ascii_host s).
Proof.
  intros s.
  assert (H : @includes (@toLowerCase ascii_host (js "ana"))
                        (@toLowerCase ascii_host (query s)) = true)
    by reflexivity.
  split; [exact H|].
  exact (proj1 (longer_query_narrows ascii_host s (js "ana") H)).
Defined.

(** ** Badge labels on arbitrary strings *)

Section LabelFacts.
Local Open Scope N_scope.

Lemma toUpperCase_unit_cases (c : code_unit) :
  (97 <= c <= 122 /\ toUpperCase_unit c = c - 32) \/
  ((c < 97 \/ 122 < c) /\ toUpperCase_unit c = c).
Proof.
  unfold toUpperCase_unit.
  destruct (N.leb_spec 97 c); destruct (N.leb_spec c 122); cbn [andb]; lia.
Qed.

Lemma is_word_char_upper (c : code_unit) :
  is_word_char (toUpperCase_unit c) = is_word_char c.
Proof.
  destruct (toUpperCase_unit_cases c) as [[Hr ->]|[_ ->]]; [|reflexivity].
  assert (H1 : is_word_char (c - 32) = true).
  { unfold is_word_char. apply orb_true_iff. left. apply orb_true_iff. left.
    apply orb_true_iff. right.
    apply andb_true_iff; split; apply N.leb_le; lia. }
  assert (H2 : is_word_char c = true).
  { unfold is_word_char. apply orb_true_iff. right.
    apply andb_true_iff; split; apply N.leb_le; lia. }
  congruence.
Qed.

Lemma toUpperCase_unit_idem (c : code_unit) :
  toUpperCase_unit (toUpperCase_unit c) = toUpperCase_unit c.
Proof.
  destruct (toUpperCase_unit_cases c) as [[Hr E]|[Hr E]]; rewrite E.
  - destruct (toUpperCase_unit_cases (c - 32)) as [[Hr' _]|[_ E']];
      [lia|exact E'].
  - exact E.
Qed.

Lemma toUpperCase_unit_hyphen (c : code_unit) :
  c <> hyphen -> toUpperCase_unit c <> hyphen.
Proof.
  unfold hyphen. destruct (toUpperCase_unit_cases c) as [[Hr ->]|[_ ->]]; lia.
Qed.

Lemma capitalize_length (s : JsString) :
  forall prev, List.length (capitalize_word_starts prev s) = List.length s.
Proof. induction s as [|c r IH]; intros prev; simpl; [|rewrite IH]; reflexivity. Qed.

Lemma capitalize_no_hyphen (s : JsString) :
  forall prev, ~ In hyphen s -> ~ In hyphen (capitalize_word_starts prev s).
Proof.
  induction s as [|c r IH]; intros prev Hs; [exact Hs|].
  cbn [capitalize_word_starts]. intros [H|H].
  - assert (Hc : c <> hyphen) by (intros ->; apply Hs; left; reflexivity).
    destruct (is_word_char c && negb prev); [|congruence].
    exact (toUpperCase_unit_hyphen c Hc H).
  - apply (IH (is_word_char c)); [|exact H].
    intros Hr. apply Hs. right. exact Hr.
Qed.

Lemma replace_hyphens_no_hyphen (s : JsString) : ~ In hyphen (replace_hyphens s).
Proof.
  unfold replace_hyphens. rewrite in_map_iff. intros [c [Hc _]].
  destruct (N.eqb_spec c hyphen); [discriminate Hc|congruence].
Qed.

Lemma replace_hyphens_id (s : JsString) :
  ~ In hyphen s -> replace_hyphens s = s.
Proof.
  induction s as [|c r IH]; intros Hs; [reflexivity|].
  unfold replace_hyphens. cbn [map]. fold (replace_hyphens r).
  destruct (N.eqb_spec c hyphen) as [->|_].
  - exfalso. apply Hs. left. reflexivity.
  - rewrite IH; [reflexivity|]. intros Hr. apply Hs. right. exact Hr.
Qed.

Lemma capitalize_idem (s : JsString) :
  forall prev,
    capitalize_word_starts prev (capitalize_word_starts prev s)
    = capitalize_word_starts prev s.
Proof.
  induction s as [|c r IH]; intros prev; [reflexivity|].
  cbn [capitalize_word_starts].
  destruct (is_word_char c && negb prev) eqn:E.
  - rewrite is_word_char_upper, E, toUpperCase_unit_idem, IH. reflexivity.
  - rewrite E, IH. reflexivity.
Qed.

(** A word character at a word start of the output is not a lower-case
    letter; [prev] stands for the character before the output. *)
Lemma capitalize_word_start (s : JsString) :
  forall prev i c,
    nth_error (capitalize_word_starts prev s) i = Some c ->
    is_word_char c = true ->
    match i with
    | O => prev = false
    | S j => exists b, nth_error (capitalize_word_starts prev s) j = Some b /\
                       is_word_char b = false
    end ->
    c < 97 \/ 122 < c.
Proof.
  induction s as [|x r IH]; intros prev i c Hn Hw Hb.
  - destruct i; discriminate Hn.
  - cbn [capitalize_word_starts] in Hn, Hb.
    destruct i as [|j].
    + subst prev. cbn [nth_error] in Hn. injection Hn as Hc.
      rewrite andb_true_r in Hc.
      destruct (is_word_char x) eqn:Ex.
      * subst c.
        destruct (toUpperCase_unit_cases x) as [[Hr E]|[Hr E]]; rewrite E; lia.
      * subst c. congruence.
    + cbn [nth_error] in Hn.
      apply (IH (is_word_char x) j c Hn Hw).
      destruct Hb as [b [Hb1 Hb2]].
      destruct j as [|k].
      * cbn [nth_error] in Hb1. injection Hb1 as Hb1.
        destruct (is_word_char x && negb prev) eqn:E.
        -- subst b. rewrite is_word_char_upper in Hb2. exact Hb2.
        -- subst b. exact Hb2.
      * cbn [nth_error] in Hb1. exists b. split; assumption.
Qed.

End LabelFacts.

(** X9: for every string, slug or not, the badge label has the length of
    the identifier, holds no hyphen, and formatting it again changes
    nothing. *)
Theorem label_shape :
  forall s : JsString,
    List.length (formatBadgeLabel s) = List.length s /\
    ~ In hyphen (formatBadgeLabel s) /\
    formatBadgeLabel (formatBadgeLabel s) = formatBadgeLabel s.
Proof.
  intros s. unfold formatBadgeLabel.
  pose proof (capitalize_no_hyphen (replace_hyphens s) false
                (replace_hyphens_no_hyphen s)) as Hno.
  split; [|split; [exact Hno|]].
  - rewrite capitalize_length. apply length_map.
  - rewrite (replace_hyphens_id _ Hno). apply capitalize_idem.
Qed.

(** X10: in a badge label no word begins with a lower-case ASCII letter:
    a word character that comes first, or right after a character that is
    not a word character, is outside [a-z], whatever the identifier. *)
Theorem label_words_start_upper :
  forall (s : JsString) (i : nat) (c : code_unit),
    nth_error (formatBadgeLabel s) i = Some c ->
    is_word_char c = true ->
    (i = 0%nat \/
     exists b, nth_error (formatBadgeLabel s) (i - 1) = Some b /\
               is_word_char b = false) ->
    (c < 97 \/ 122 < c)%N.
Proof.
  intros s i c Hn Hw Hb. unfold formatBadgeLabel in *.
  apply (capitalize_word_start _ false i c Hn Hw).
  destruct i as [|j]; [reflexivity|].
  destruct Hb as [Hb|Hb]; [discriminate Hb|].
  replace (S j - 1)%nat with j in Hb by lia. exact Hb.
Qed.

Lemma label_words_start_upper_witness :
  nth_error (formatBadgeLabel (js "it's-ok")) 3 = Some 83%N /\
  (83 < 97 \/ 122 < 83)%N.
Proof.
  assert (H : nth_error (formatBadgeLabel (js "it's-ok")) 3 = Some 83%N)
    by reflexivity.
  split; [exact H|].
  apply (label_words_start_upper (js "it's-ok") 3 83%N H eq_refl).
  right. exists 39%N. split; reflexivity.
Defined.

(** ** Badge icons *)

Import Icons.

Section IconFacts.
Local Open Scope N_scope.

Lemma JsString_eqb_eq (a b : JsString) : JsString_eqb a b = true <-> a = b.
Proof.
  revert b. induction a as [|x a IH]; intros [|y b]; simpl;
    try (split; [discriminate|discriminate]); [tauto|].
  rewrite andb_true_iff, N.eqb_eq, IH. split.
  - intros [-> ->]. reflexivity.
  - intros H. injection H as -> ->. auto.
Qed.

Lemma own_property_in (key : JsString) (o : list (JsString * JsString)) :
  forall v, own_property key o = Some v -> In (key, v) o.
Proof.
  induction o as [|[k w] rest IH]; intros v; simpl; [discriminate|].
  destruct (JsString_eqb key k) eqn:E.
  - apply JsString_eqb_eq in E. subst k. intros H. injection H as ->. auto.
  - intros H. right. apply IH. exact H.
Qed.

Lemma own_property_none (key : JsString) (o : list (JsString * JsString)) :
  own_property key o = None <-> ~ In key (map fst o).
Proof.
  induction o as [|[k w] rest IH]; simpl; [tauto|].
  destruct (JsString_eqb key k) eqn:E.
  - apply JsString_eqb_eq in E. subst k. split; [discriminate|tauto].
  - rewrite IH. split.
    + intros H [Hk|Hk]; [|tauto]. subst k.
      rewrite (proj2 (JsString_eqb_eq key key) eq_refl) in E. discriminate.
    + tauto.
Qed.

Lemma Text_inj (a b : JsString) : Text a = Text b -> a = b.
Proof. intros H. injection H as H. exact H. Qed.

(** Every glyph of the table is a non-empty string other than the
    fallback glyph. *)
Lemma emojis_glyphs :
  Forall (fun kv => snd kv <> [] /\ snd kv <> fallback_emoji) emojis.
Proof. repeat constructor; discriminate. Qed.

End IconFacts.

(** X11: the fallback glyph marks exactly the badges the table does not
    list: for an identifier that [Object.prototype] does not resolve,
    [getBadgeEmoji] returns a non-empty string, which is the fallback
    glyph if and only if the identifier is none of the table's keys; an
    unlisted identifier that is resolved there (such as ["constructor"])
    yields no string at all; and [Badge] shows the fallback glyph for a
    missing or empty identifier. *)
Theorem badge_icon_fallback :
  forall (inherited : JsString -> bool) (badgeId : JsString),
    (inherited badgeId = false ->
     (exists g, getBadgeEmoji inherited badgeId = Text g /\ g <> []) /\
     (getBadgeEmoji inherited badgeId = Text fallback_emoji <->
      ~ In badgeId (map fst emojis))) /\
    (inherited badgeId = true -> ~ In badgeId (map fst emojis) ->
     getBadgeEmoji inherited badgeId = Inherited) /\
    (forall label, icon (Badge inherited label None) = Text fallback_emoji) /\
    (forall label, icon (Badge inherited label (Some [])) = Text fallback_emoji) /\
    (forall label, badgeId <> [] ->
       icon (Badge inherited label (Some badgeId))
       = getBadgeEmoji inherited badgeId).
Proof.
  intros inherited badgeId.
  assert (Hown : forall v, own_property badgeId emojis = Some v ->
                           v <> [] /\ v <> fallback_emoji).
  { intros v Hv. apply own_property_in in Hv.
    pose proof emojis_glyphs as Hg. rewrite Forall_forall in Hg.
    exact (Hg _ Hv). }
  split; [|split; [|split; [|split]]].
  - intros Hinh. unfold getBadgeEmoji. rewrite Hinh.
    rewrite <- own_property_none.
    destruct (own_property badgeId emojis) as [[|c v]|] eqn:E.
    + destruct (Hown _ eq_refl) as [H _]. congruence.
    + destruct (Hown _ eq_refl) as [_ H]. split.
      * exists (c :: v). split; [reflexivity|discriminate].
      * split; [intros Ht; exfalso; apply H; exact (Text_inj _ _ Ht)|discriminate].
    + split.
      * exists fallback_emoji. split; [reflexivity|discriminate].
      * split; reflexivity.
  - intros Hinh Hno. apply own_property_none in Hno.
    unfold getBadgeEmoji. rewrite Hno, Hinh. reflexivity.
  - reflexivity.
  - reflexivity.
  - intros label Hne. destruct badgeId as [|c b]; [congruence|reflexivity].
Qed.

Lemma badge_icon_fallback_witness :
  standard_inherited (js "websocket-wizard") = false /\
  (exists g, getBadgeEmoji standard_inherited (js "websocket-wizard") = Text g /\
             g <> []).
Proof.
  assert (H : standard_inherited (js "websocket-wizard") = false)
    by reflexivity.
  split; [exact H|].
  exact (proj1 (proj1 (badge_icon_fallback standard_inherited
                         (js "websocket-wizard")) H)).
Defined.

(** ** The rendered page *)

Import Render.

Section RenderFacts.
Context {host : JsHost}.
Variable inherited : JsString -> bool.

Lemma map_indexed_length {A B : Type} (f : A -> nat -> B) (l : list A) :
  forall i, List.length (map_indexed f i l) = List.length l.
Proof. induction l as [|x r IH]; intros i; simpl; [|rewrite IH]; reflexivity. Qed.

Lemma map_indexed_keys (l : list JsString) :
  forall i,
    map chip_key
      (map_indexed
         (fun badgeId k =>
            {| chip_key := k;
               chip := Badge inherited (formatBadgeLabel badgeId)
                             (Some badgeId) |}) i l)
    = seq i (List.length l).
Proof. induction l as [|x r IH]; intros i; simpl; [|rewrite IH]; reflexivity. Qed.

Lemma map_indexed_captions (l : list JsString) :
  forall i,
    map (fun c => caption (chip c))
      (map_indexed
         (fun badgeId k =>
            {| chip_key := k;
               chip := Badge inherited (formatBadgeLabel badgeId)
                             (Some badgeId) |}) i l)
    = map formatBadgeLabel l.
Proof. induction l as [|x r IH]; intros i; simpl; [|rewrite IH]; reflexivity. Qed.

Lemma render_chips_some (l : list JsString) (cs : list Chip) :
  render_chips inherited l = Some cs ->
  List.length cs = List.length l /\
  map chip_key cs = seq 0 (List.length cs) /\
  map (fun c => caption (chip c)) cs = map formatBadgeLabel l.
Proof.
  destruct l as [|x l]; [discriminate|].
  unfold render_chips. intros H.
  assert (E : cs = map_indexed
                     (fun badgeId k =>
                        {| chip_key := k;
                           chip := Badge inherited (formatBadgeLabel badgeId)
                                         (Some badgeId) |}) 0 (x :: l))
    by congruence.
  rewrite E.
  rewrite map_indexed_keys, map_indexed_captions, map_indexed_length.
  repeat split.
Qed.

Lemma body_rows (s : State) :
  filtered s <> [] ->
  body (render inherited s) = Rows (map (render_row inherited) (filtered s)).
Proof.
  intros H. cbn [render body].
  destruct (filtered s); [congruence|reflexivity].
Qed.

Lemma active_card_rows (l : list Participant.t) :
  List.length (filter Participant.isOnline l)
  = List.length (filter online_dot (map (render_row inherited) l)).
Proof.
  induction l as [|p l IH]; [reflexivity|].
  cbn [map filter render_row online_dot].
  destruct (Participant.isOnline p); cbn [List.length]; rewrite IH;
    reflexivity.
Qed.

End RenderFacts.

(** X12: right after a fetch the page shows the error banner unless the
    fetch succeeded or the thrown [Error] carries an empty message; in
    that last case the indicator says "Disconnected" and nothing tells
    why.  A response that is not OK shows the message the code throws. *)
Theorem banner_after_fetch :
  forall (host : JsHost) (inherited : JsString -> bool)
         (o : FetchOutcome) (s : State),
    let page := render inherited (fetchParticipants o s) in
    indicator page = succeeds o /\
    (banner page = None <->
     succeeds o = true \/ fetch_try o = inl (ErrorObject [])) /\
    (forall r : Response,
        o = inr r -> ok r = false ->
        banner page = Some (js "Failed to fetch participants")).
Proof.
  intros host inherited o s page. subst page.
  destruct (succeeds o) eqn:Es.
  - destruct (succeeds_true o Es) as [data ->].
    split; [reflexivity|]. split.
    + split; [auto|reflexivity].
    + intros r Hr Hok. injection Hr as <-. discriminate Hok.
  - destruct (succeeds_false o Es) as [err He].
    rewrite (fetchParticipants_failure o err s He).
    cbn [render indicator banner error].
    split; [reflexivity|]. split.
    + destruct err as [[|c m]|]; cbn [error_message].
      * split; [intros _; right; exact He|reflexivity].
      * split; [discriminate|].
        intros [H|H]; [discriminate H|]. rewrite He in H. discriminate H.
      * split; [discriminate|].
        intros [H|H]; [discriminate H|]. rewrite He in H. discriminate H.
    + intros r -> Hok.
      assert (He' : fetch_try (inr r)
                    = inl (ErrorObject (js "Failed to fetch participants"))).
      { apply fetch_try_failure_cases. right; left. eauto. }
      rewrite He' in He. injection He as <-. reflexivity.
Qed.

(** X13: the placeholder is shown exactly when no participant matches the
    query, also when the view list itself is not empty; otherwise there is
    one row per match, in the order of the view list; with an empty query
    a non-empty view list is shown in full. *)
Theorem placeholder_iff_no_match :
  forall (host : JsHost) (inherited : JsString -> bool) (s : State),
    (body (render inherited s) = Placeholder <-> filtered s = []) /\
    (forall rows,
        body (render inherited s) = Rows rows ->
        rows = map (render_row inherited) (filtered s) /\
        (0 < List.length rows <= List.length (participants s))%nat) /\
    (lowers_ascii host -> query s = [] -> participants s <> [] ->
     body (render inherited s)
     = Rows (map (render_row inherited) (participants s))).
Proof.
  intros host inherited s. cbn [render body].
  split; [|split].
  - destruct (filtered s); split; (reflexivity || discriminate).
  - intros rows Hr.
    pose proof (filter_length_le (matches_query (query s)) (participants s))
      as Hle. fold (filtered s) in Hle.
    destruct (filtered s) as [|p ps] eqn:E; [discriminate Hr|].
    injection Hr as <-. split; [reflexivity|].
    cbn [map List.length] in *. rewrite ?length_map. lia.
  - intros Hlow Hq Hne.
    rewrite (filtered_of_empty_query host s Hlow Hq).
    destruct (participants s); [congruence|reflexivity].
Qed.

Lemma placeholder_iff_no_match_witness :
  lowers_ascii ascii_host /\
  body (@render ascii_host standard_inherited sample_state)
  = Rows (map (@render_row standard_inherited) (participants sample_state)).
Proof.
  assert (H : lowers_ascii ascii_host) by (intros s _; reflexivity).
  split; [exact H|].
  apply (proj2 (proj2 (placeholder_iff_no_match ascii_host standard_inherited
                         sample_state)) H eq_refl).
  discriminate.
Defined.

(** X14: the row of a fetched participant shows "No badges yet" exactly
    when the raw participant has no badge, and otherwise one chip per raw
    badge, keyed 0, 1, 2, ..., captioned with the formatted badge
    identifiers in order; the percentage beside them is five times the
    number of chips. *)
Theorem row_chips_of_fetched :
  forall (host : JsHost) (inherited : JsString -> bool)
         (r : ParticipantData.t),
    let row := render_row inherited (formatParticipant r) in
    (chips row = None <-> ParticipantData.badges r = []) /\
    (forall cs : list Chip,
        chips row = Some cs ->
        List.length cs = List.length (ParticipantData.badges r) /\
        map chip_key cs = seq 0 (List.length cs) /\
        map (fun c => caption (chip c)) cs
        = map (fun b => formatBadgeLabel (BadgeData.id b))
              (ParticipantData.badges r) /\
        ((Z.of_nat (List.length (ParticipantData.badges r)) < 2 ^ 32)%Z ->
         percent row = of_Z (5 * Z.of_nat (List.length cs)))).
Proof.
  intros host inherited r row. subst row.
  cbn [render_row chips percent].
  split.
  - unfold formatParticipant; cbn [Participant.badges].
    destruct (ParticipantData.badges r); split;
      (reflexivity || discriminate).
  - intros cs Hc.
    destruct (render_chips_some inherited _ _ Hc) as (Hlen & Hkeys & Hcap).
    unfold formatParticipant in Hlen, Hcap; cbn [Participant.badges] in Hlen, Hcap.
    rewrite length_map in Hlen. rewrite map_map in Hcap.
    repeat split; try assumption.
    intros Hn. rewrite Hlen. apply progress_of_badge_count. exact Hn.
Qed.

Lemma row_chips_of_fetched_witness :
  (exists cs,
      chips (@render_row standard_inherited
               (@formatParticipant ascii_host (sample_raw "Ana" 2 true)))
      = Some cs /\
      map chip_key cs = [0; 1]%nat).
Proof.
  pose proof (row_chips_of_fetched ascii_host standard_inherited
                (sample_raw "Ana" 2 true)) as [_ H].
  eexists. split; [reflexivity|].
  exact (proj1 (proj2 (H _ eq_refl))).
Defined.

(** X15: from the response to the table: after a successful fetch of a
    non-empty list, with an empty search box, the page says "Connected",
    shows no banner, and has one row per raw participant, in the order of
    the response, with the identifier as key, the name, the online dot and
    the "Offline" tag of that participant; the first stat card counts the
    rows whose dot is on. *)
Theorem page_shows_response :
  forall (host : JsHost) (inherited : JsString -> bool)
         (data : ResponseData) (s : State),
    lowers_ascii host ->
    query s = [] ->
    participants_or_empty data <> [] ->
    let raw := participants_or_empty data in
    let page :=
      render inherited
        (fetchParticipants (inr {| ok := true; json := inr data |}) s) in
    indicator page = true /\
    banner page = None /\
    exists rows,
      body page = Rows rows /\
      map row_key rows = map ParticipantData.id raw /\
      map row_name rows = map ParticipantData.name raw /\
      map online_dot rows = map ParticipantData.isOnline raw /\
      map offline_tag rows
      = map (fun r => negb (ParticipantData.isOnline r)) raw /\
      active_card page = List.length (filter online_dot rows).
Proof.
  intros host inherited data s Hlow Hq Hne raw page. subst page.
  rewrite fetchParticipants_success. fold raw.
  set (s' := {| query := query s; connected := true;
                participants := map formatParticipant raw;
                error := None |}).
  assert (Hf : filtered s' = map formatParticipant raw)
    by (apply filtered_of_empty_query; [exact Hlow|exact Hq]).
  split; [reflexivity|]. split; [reflexivity|].
  exists (map (render_row inherited) (map formatParticipant raw)).
  split; [|split; [|split; [|split; [|split]]]].
  - rewrite body_rows; rewrite Hf; [reflexivity|].
    intros E. apply map_eq_nil in E. contradiction.
  - rewrite !map_map. reflexivity.
  - rewrite !map_map. reflexivity.
  - rewrite !map_map. reflexivity.
  - rewrite !map_map. reflexivity.
  - exact (active_card_rows inherited (map formatParticipant raw)).
Qed.

Lemma page_shows_response_witness :
  let data := {| participants_field := Some [sample_raw "Ana" 2 true] |} in
  lowers_ascii ascii_host /\
  indicator
    (@render ascii_host standard_inherited
       (@fetchParticipants ascii_host
          (inr {| ok := true; json := inr data |}) sample_state))
  = true.
Proof.
  assert (H : lowers_ascii ascii_host) by (intros s _; reflexivity).
  split; [exact H|].
  apply (page_shows_response ascii_host standard_inherited
           {| participants_field := Some [sample_raw "Ana" 2 true] |}
           sample_state H eq_refl).
  discriminate.
Defined.

(** ** The commit script as a whole *)

Section RunFacts.
Variable env : Env.
Local Open Scope string_scope.
Local Open Scope list_scope.

Lemma main_first_argument (args : list string) (start : path) :
  main env args start = main env [nth 0 args ""] start.
Proof. reflexivity. Qed.

Lemma main_trace (args : list string) (start : path) :
  nth 0 args "" <> "" ->
  main env args start = (0%Z, trace env (nth 0 args "") start).
Proof.
  intros Hne. unfold trace. rewrite <- main_first_argument.
  unfold main. destruct (nth 0 args "") eqn:E; [congruence|reflexivity].
Qed.

Lemma in_events_of_cases (msg : string) (x : path) (e : Event) :
  In e (events_of env msg x) ->
  e = Echo (Processing x) \/
  (is_dir env x = true /\
   (e = GitAddAll x \/ e = GitDiffCached x \/
    (diff_cached_quiet env x = true /\ e = Echo (NoChanges x)) \/
    (diff_cached_quiet env x = false /\
     (e = GitCommit x msg \/ e = Echo (Committed x))))).
Proof.
  unfold events_of. intros [H|H]; [left; auto|right].
  destruct (is_dir env x); [|contradiction]. split; [reflexivity|].
  destruct H as [H|[H|H]]; [left; auto|right; left; auto|right; right].
  destruct (diff_cached_quiet env x).
  - destruct H as [H|[]]. left. auto.
  - destruct H as [H|[H|[]]]; right; auto.
Qed.

Lemma events_of_commit_block (msg : string) (d : path) :
  is_dir env d = true -> diff_cached_quiet env d = false ->
  events_of env msg d
  = [Echo (Processing d); GitAddAll d; GitDiffCached d;
     GitCommit d msg; Echo (Committed d)].
Proof. intros H1 H2. unfold events_of. rewrite H1, H2. reflexivity. Qed.

Lemma visited_inside (start : path) (a : string) (subs : list string) :
  (forall b, In b subs -> is_dir env (start ++ [a; b; ".git"]) = false) ->
  visited env start (start ++ [a]) subs = [].
Proof.
  induction subs as [|b rest IH]; intros H; [reflexivity|].
  rewrite visited_cons.
  replace ((start ++ [a]) ++ [b; ".git"]) with (start ++ [a; b; ".git"])
    by (rewrite <- app_assoc; reflexivity).
  rewrite (H b) by (left; reflexivity).
  apply IH. intros b' Hb'. apply H. right. exact Hb'.
Qed.

Lemma visited_first (start : path) (subs : list string) :
  (forall sub, In sub subs ->
     is_dir env (start ++ [sub; ".git"]) = true ->
     is_dir env (start ++ [sub]) = true) ->
  (forall a b, In a subs -> In b subs ->
     is_dir env (start ++ [a; b; ".git"]) = false) ->
  visited env start start subs
  = match find (fun s => is_dir env (start ++ [s; ".git"])) subs with
    | Some s => [start ++ [s]]
    | None => []
    end.
Proof.
  induction subs as [|a rest IH]; intros Hc Hn; [reflexivity|].
  rewrite visited_cons. cbn [find].
  destruct (is_dir env (start ++ [a; ".git"])) eqn:Eg.
  - rewrite (Hc a (or_introl eq_refl) Eg).
    rewrite visited_inside; [reflexivity|].
    intros b Hb. apply Hn; [left; reflexivity|right; exact Hb].
  - apply IH.
    + intros sub Hs. apply Hc. right. exact Hs.
    + intros x y Hx Hy. apply Hn; right; assumption.
Qed.

End RunFacts.

(** X16: given a non-empty first argument the script always runs to its
    end: it exits with status 0 and its last line is "All repositories
    processed.", it announces the start directory, never prints the usage
    line, and ignores every argument after the first, whatever the file
    system and [git] answer. *)
Theorem script_completes :
  forall (env : Env) (args : list string) (start : path),
    nth 0 args EmptyString <> EmptyString ->
    fst (main env args start) = 0%Z /\
    (exists l, snd (main env args start) = l ++ [Echo AllProcessed] /\
               ~ In (Echo AllProcessed) l) /\
    In (Echo (Processing start)) (snd (main env args start)) /\
    ~ In (Echo Usage) (snd (main env args start)) /\
    main env args start = main env [nth 0 args EmptyString] start.
Proof.
  intros env args start Hne.
  pose proof (main_trace env args start Hne) as Hm.
  pose proof (trace_eq env _ start Hne) as Ht.
  assert (Hnot : forall e,
             (forall d, e <> Echo (Processing d)) ->
             (forall d, e <> Echo (NoChanges d)) ->
             (forall d, e <> Echo (Committed d)) ->
             (forall d, e <> GitAddAll d) ->
             (forall d, e <> GitDiffCached d) ->
             (forall d m, e <> GitCommit d m) ->
             ~ In e (flat_map (events_of env (nth 0 args EmptyString))
                       (visited env start start subrepos ++ [start]))).
  { intros e H1 H2 H3 H4 H5 H6 Hin.
    apply in_flat_map in Hin. destruct Hin as (x & _ & Hx).
    apply in_events_of_cases in Hx.
    destruct Hx as [Hx|(_ & [Hx|[Hx|[(_ & Hx)|(_ & [Hx|Hx])]]])];
      [exact (H1 _ Hx)|exact (H4 _ Hx)|exact (H5 _ Hx)|exact (H2 _ Hx)
      |exact (H6 _ _ Hx)|exact (H3 _ Hx)]. }
  split; [|split; [|split; [|split]]].
  - rewrite Hm. reflexivity.
  - rewrite Hm. cbn [snd]. rewrite Ht.
    eexists. split; [reflexivity|].
    apply Hnot; intros; discriminate.
  - rewrite Hm. cbn [snd]. rewrite Ht.
    apply in_or_app. left. apply in_flat_map. exists start. split.
    + apply in_or_app. right. left. reflexivity.
    + left. reflexivity.
  - rewrite Hm. cbn [snd]. rewrite Ht.
    intros Hin. apply in_app_or in Hin. destruct Hin as [Hin|[Hin|[]]];
      [|discriminate Hin].
    revert Hin. apply Hnot; intros; discriminate.
  - reflexivity.
Qed.

Lemma script_completes_witness :
  fst (main two_subrepos_env ["wip"; "extra"]%string ["work"%string]) = 0%Z.
Proof.
  apply (script_completes two_subrepos_env ["wip"; "extra"]%string
           ["work"%string]).
  discriminate.
Defined.

(** X17: every [git] command of a run works in a directory that exists
    and is either the start directory or one of the three named
    subdirectories of it; [git diff --cached --quiet] comes right after
    [git add -A] in the same directory; and every commit carries the
    first argument, which is not empty, and comes right after the
    [git add -A] and the [git diff --cached --quiet] of its directory,
    the latter having exited with a status other than 0. *)
Theorem git_commands_confined :
  forall (env : Env) (args : list string) (start : path) (e : Event),
    In e (snd (main env args start)) ->
    let here (d : path) :=
      is_dir env d = true /\
      (d = start \/ exists sub, In sub subrepos /\ d = start ++ [sub]) in
    let follows (block : list Event) :=
      exists before after,
        snd (main env args start) = before ++ block ++ after in
    match e with
    | Echo _ => True
    | GitAddAll d => here d
    | GitDiffCached d =>
        here d /\ follows [GitAddAll d; GitDiffCached d]
    | GitCommit d m =>
        here d /\ m = nth 0 args EmptyString /\ m <> EmptyString /\
        diff_cached_quiet env d = false /\
        follows [GitAddAll d; GitDiffCached d; GitCommit d m]
    end.
Proof.
  intros env args start e Hin here follows.
  destruct (string_dec (nth 0 args EmptyString) EmptyString) as [E|Hne].
  - rewrite main_first_argument, E in Hin.
    destruct Hin as [<-|[]]. exact I.
  - pose proof (main_trace env args start Hne) as Hm.
    pose proof (trace_eq env _ start Hne) as Ht.
    assert (Hout : snd (main env args start)
                   = flat_map (events_of env (nth 0 args EmptyString))
                       (visited env start start subrepos ++ [start])
                     ++ [Echo AllProcessed])
      by (rewrite Hm; exact Ht).
    rewrite Hout in Hin.
    apply in_app_or in Hin. destruct Hin as [Hin|[<-|[]]]; [|exact I].
    apply in_flat_map in Hin. destruct Hin as (x & Hx & Hex).
    assert (Hplace : x = start \/
                     exists sub, In sub subrepos /\ x = start ++ [sub]).
    { apply in_app_or in Hx. destruct Hx as [Hx|[Hx|[]]]; [right|left; auto].
      exact (visited_in env start subrepos start x Hx). }
    assert (Hblock : forall block rest,
               events_of env (nth 0 args EmptyString) x
               = Echo (Processing x) :: block ++ rest ->
               follows block).
    { intros block rest Hev. unfold follows. rewrite Hout.
      apply in_split in Hx. destruct Hx as (l1 & l2 & ->).
      rewrite flat_map_app. cbn [flat_map]. rewrite Hev.
      exists (flat_map (events_of env (nth 0 args EmptyString)) l1
              ++ [Echo (Processing x)]).
      exists (rest
              ++ flat_map (events_of env (nth 0 args EmptyString)) l2
              ++ [Echo AllProcessed]).
      rewrite <- !app_assoc. cbn [app]. rewrite <- !app_assoc.
      reflexivity. }
    apply in_events_of_cases in Hex.
    destruct Hex as [-> | (Hd & [-> | [-> | [(_ & ->) | (Hq & [-> | ->])]]])];
      try exact I.
    + unfold here; auto.
    + split; [unfold here; auto|].
      apply (Hblock [GitAddAll x; GitDiffCached x]
               (if diff_cached_quiet env x
                then [Echo (NoChanges x)]
                else [GitCommit x (nth 0 args EmptyString);
                      Echo (Committed x)])).
      unfold events_of. rewrite Hd. reflexivity.
    + split; [unfold here; auto|].
      split; [reflexivity|]. split; [exact Hne|]. split; [exact Hq|].
      apply (Hblock [GitAddAll x; GitDiffCached x;
                     GitCommit x (nth 0 args EmptyString)]
               [Echo (Committed x)]).
      unfold events_of. rewrite Hd, Hq. reflexivity.
Qed.

Lemma git_commands_confined_witness :
  is_dir two_subrepos_env ["work"%string] = true /\
  diff_cached_quiet two_subrepos_env ["work"%string] = false.
Proof.
  assert (Hin : In (GitCommit ["work"%string] "wip")
                   (snd (main two_subrepos_env ["wip"%string]
                           ["work"%string])))
    by (vm_compute; tauto).
  pose proof (git_commands_confined two_subrepos_env ["wip"%string]
                ["work"%string] _ Hin) as H.
  split; [exact (proj1 (proj1 H))
         |exact (proj1 (proj2 (proj2 (proj2 H))))].
Defined.

(** X18: a commit never stands alone: in the trace it is the fourth of
    five consecutive events for its directory, the announcement,
    [git add -A], [git diff --cached --quiet], the commit, and the line
    that reports success, which is printed without looking at the exit
    status of [git commit]. *)
Theorem commit_block :
  forall (env : Env) (msg : string) (start d : path) (m : string),
    msg <> EmptyString ->
    In (GitCommit d m) (trace env msg start) ->
    exists before after,
      trace env msg start
      = before ++
        [Echo (Processing d); GitAddAll d; GitDiffCached d;
         GitCommit d m; Echo (Committed d)] ++ after.
Proof.
  intros env msg start d m Hne Hin.
  pose proof (trace_eq env msg start Hne) as Ht.
  rewrite Ht in Hin. rewrite Ht.
  apply in_app_or in Hin. destruct Hin as [Hin|[Hin|[]]];
    [|discriminate Hin].
  apply (proj1 (in_events_commit _ _ _ _ _)) in Hin. destruct Hin as (Hd & Hdir & Hq & ->).
  apply in_split in Hd. destruct Hd as (l1 & l2 & ->).
  rewrite flat_map_app. cbn [flat_map].
  rewrite (events_of_commit_block env msg d Hdir Hq).
  exists (flat_map (events_of env msg) l1).
  exists (flat_map (events_of env msg) l2 ++ [Echo AllProcessed]).
  rewrite <- !app_assoc. reflexivity.
Qed.

Lemma commit_block_witness :
  exists before after,
    trace two_subrepos_env "wip" ["work"%string]
    = before ++
      [Echo (Processing ["work"%string]); GitAddAll ["work"%string];
       GitDiffCached ["work"%string]; GitCommit ["work"%string] "wip";
       Echo (Committed ["work"%string])] ++ after.
Proof.
  apply (commit_block two_subrepos_env "wip" ["work"%string]).
  - discriminate.
  - vm_compute. tauto.
Defined.

(** X19: in a checkout where a subdirectory that holds metadata exists and
    no named subdirectory holds another named subdirectory with metadata,
    the loop handles one subdirectory at most: a named subdirectory is
    staged exactly when it is the first of the list that holds metadata,
    and committed exactly when, moreover, staged changes are reported
    there.  Every later one is passed over, because the loop tests for
    metadata relative to the directory [commit_in_dir] has moved into. *)
Theorem only_first_subrepo_is_handled :
  forall (env : Env) (msg : string) (start : path),
    msg <> EmptyString ->
    (forall sub, In sub subrepos ->
       is_dir env (start ++ [sub; ".git"%string]) = true ->
       is_dir env (start ++ [sub]) = true) ->
    (forall a b, In a subrepos -> In b subrepos ->
       is_dir env (start ++ [a; b; ".git"%string]) = false) ->
    forall sub : string,
      let first :=
        find (fun s => is_dir env (start ++ [s; ".git"%string])) subrepos in
      (In (GitAddAll (start ++ [sub])) (trace env msg start) <->
       first = Some sub) /\
      (In (GitCommit (start ++ [sub]) msg) (trace env msg start) <->
       first = Some sub /\ diff_cached_quiet env (start ++ [sub]) = false).
Proof.
  intros env msg start Hne Hc Hn sub first.
  rewrite (trace_eq env msg start Hne).
  rewrite (visited_first env start subrepos Hc Hn). fold first.
  assert (Hmem : forall s, first = Some s ->
                           is_dir env (start ++ [s]) = true).
  { intros s Hs. apply find_some in Hs. destruct Hs as [Hs Hg].
    apply Hc; assumption. }
  assert (Hplace : In (start ++ [sub])
                      (match first with
                       | Some s => [start ++ [s]]
                       | None => []
                       end ++ [start]) <-> first = Some sub).
  { split.
    - intros Hin. apply in_app_or in Hin. destruct Hin as [Hin|[Hin|[]]].
      + destruct first as [s|]; [|contradiction].
        destruct Hin as [Hin|[]]. apply app_inv_head in Hin.
        injection Hin as ->. reflexivity.
      + symmetry in Hin. exfalso. exact (subdir_neq start sub Hin).
    - intros ->. left. reflexivity. }
  split.
  - rewrite in_before_last by discriminate.
    rewrite in_events_add, Hplace. split; [tauto|].
    intros Hf. split; [exact Hf|exact (Hmem _ Hf)].
  - rewrite in_before_last by discriminate.
    rewrite in_events_commit, Hplace. split; [tauto|].
    intros [Hf Hq]. repeat split; auto.
Qed.

Lemma only_first_subrepo_is_handled_witness :
  In (GitAddAll ["work"; "instructor-service"]%string)
     (trace two_subrepos_env "wip" ["work"%string]) /\
  ~ In (GitAddAll ["work"; "instructor-ui"]%string)
       (trace two_subrepos_env "wip" ["work"%string]).
Proof.
  assert (Hne : "wip"%string <> EmptyString) by discriminate.
  assert (Hc : forall sub, In sub subrepos ->
             is_dir two_subrepos_env ["work"; sub; ".git"]%string = true ->
             is_dir two_subrepos_env ["work"; sub]%string = true).
  { intros sub [<-|[<-|[<-|[]]]]; vm_compute; auto. }
  assert (Hn : forall a b, In a subrepos -> In b subrepos ->
             is_dir two_subrepos_env ["work"; a; b; ".git"]%string = false).
  { intros a b [<-|[<-|[<-|[]]]] [<-|[<-|[<-|[]]]]; reflexivity. }
  split.
  - apply (proj1 (only_first_subrepo_is_handled two_subrepos_env "wip"
                    ["work"%string] Hne Hc Hn "instructor-service"%string)).
    reflexivity.
  - intros Hin.
    apply (proj1 (only_first_subrepo_is_handled two_subrepos_env "wip"
                    ["work"%string] Hne Hc Hn "instructor-ui"%string)) in Hin.
    discriminate Hin.
Defined.
